(** * Race session client: circuit distance and race-detail screen

    A shallow embedding of the TypeScript sources

    - [CreateCircuit]  (circuit creation screen: [calculateDistance], the
                        way points, [saveCircuit]),
    - [RaceDetail]     (race detail screen: load, channel, join / start /
                        begin / finish, timer, cleanup),
    - [CircuitDetail]  (circuit detail screen: [createRace]),

    together with the properties the specification states about them, and
    further properties of the same code.

    Numbers.  [calculateDistance] is written once over an abstract
    arithmetic ([Arith]): the loop and the order of the operations are those
    of the source whatever the number type is.  It is run on terms, to read
    off the expression it evaluates, and on IEEE 754 doubles, the numbers of
    JavaScript, with [Math.sin], [Math.cos] and [Math.atan2] supplied by
    the platform.  Timestamps ([Date.now()]) are integers of milliseconds,
    times in seconds are rationals.

    Asynchrony.  An [async] function is cut at its [await]s: each piece runs
    atomically (JavaScript is single threaded), and the awaited operation
    sits in the list of pending operations until the environment resolves
    it.  The environment (server, channel, user, clock, location provider)
    is the source of the events.

    Left out: console output, styles, the map view, the formatting of
    times and navigation between screens. *)

From Stdlib Require Import String Bool Arith ZArith QArith Lia.
From Stdlib Require Import Floats.
From Stdlib Require Import List.
Import ListNotations.

Set Implicit Arguments.

(* ================================================================== *)
(** * Part I.  Definitions *)
(* ================================================================== *)

(** ** Circuit distance: [calculateDistance] of the circuit creation screen *)

Module Haversine.

(** The number operations [calculateDistance] uses. [lit] is a numeric
    literal of the source ([0], [1], [2], [180], [6371]). *)
Class Arith (A : Type) : Type := {
  lit   : Z -> A;
  add   : A -> A -> A;
  sub   : A -> A -> A;
  mul   : A -> A -> A;
  div   : A -> A -> A;
  Math_PI    : A;
  Math_sin   : A -> A;
  Math_cos   : A -> A;
  Math_sqrt  : A -> A;
  Math_atan2 : A -> A -> A
}.

(** An element of the [coordinates] array. *)
Record Coordinate (A : Type) : Type := mkCoordinate {
  latitude  : A;
  longitude : A
}.

Section Distance.

Context {A : Type} {arith : Arith A}.

(** [const a] of the iteration that reads [p1] and [p2]. *)
Definition segment_a (p1 p2 : Coordinate A) : A :=
  let lat1 := latitude p1 in
  let lon1 := longitude p1 in
  let lat2 := latitude p2 in
  let lon2 := longitude p2 in
  let dLat := mul (sub lat2 lat1) (div Math_PI (lit 180)) in
  let dLon := mul (sub lon2 lon1) (div Math_PI (lit 180)) in
  add (mul (Math_sin (div dLat (lit 2))) (Math_sin (div dLat (lit 2))))
      (mul (mul (mul (Math_cos (mul lat1 (div Math_PI (lit 180))))
                     (Math_cos (mul lat2 (div Math_PI (lit 180)))))
                (Math_sin (div dLon (lit 2))))
           (Math_sin (div dLon (lit 2)))).

(** The body of the [for] loop up to [const c]: the value of [R * c] for
    the two points the iteration reads. *)
Definition segment (p1 p2 : Coordinate A) : A :=
  let lat1 := latitude p1 in
  let lon1 := longitude p1 in
  let lat2 := latitude p2 in
  let lon2 := longitude p2 in
  let R := lit 6371 in
  let dLat := mul (sub lat2 lat1) (div Math_PI (lit 180)) in
  let dLon := mul (sub lon2 lon1) (div Math_PI (lit 180)) in
  let a :=
    add (mul (Math_sin (div dLat (lit 2))) (Math_sin (div dLat (lit 2))))
        (mul (mul (mul (Math_cos (mul lat1 (div Math_PI (lit 180))))
                       (Math_cos (mul lat2 (div Math_PI (lit 180)))))
                  (Math_sin (div dLon (lit 2))))
             (Math_sin (div dLon (lit 2)))) in
  let c := mul (lit 2) (Math_atan2 (Math_sqrt a) (Math_sqrt (sub (lit 1) a))) in
  mul R c.

(** One iteration: [coordinates[i]] and [coordinates[i + 1]] are read
    ([None]: the element is [undefined] and reading its [latitude] throws),
    then [distance += R * c]. *)
Definition loop_body (coordinates : list (Coordinate A)) (i : nat) (distance : A)
  : option A :=
  match nth_error coordinates i, nth_error coordinates (i + 1) with
  | Some p1, Some p2 => Some (add distance (segment p1 p2))
  | _, _ => None
  end.

(** [for (let i = 0; i < coordinates.length - 1; i++) { ... }], from the
    state [(i, distance)]. [fuel] bounds the number of tests of the loop
    condition; [None] is an exception or the fuel running out. *)
Fixpoint for_loop (fuel : nat) (coordinates : list (Coordinate A))
         (i : nat) (distance : A) : option A :=
  match fuel with
  | O => None
  | S fuel' =>
      if i <? length coordinates - 1 then
        match loop_body coordinates i distance with
        | Some distance' => for_loop fuel' coordinates (i + 1) distance'
        | None => None
        end
      else Some distance
  end.

(** [calculateDistance], with the [coordinates] state as its argument. *)
Definition calculateDistance (coordinates : list (Coordinate A)) : option A :=
  if length coordinates <? 2 then Some (lit 0)
  else for_loop (length coordinates) coordinates 0 (lit 0).

(** The consecutive pairs of a sequence. *)
Definition consecutive (l : list (Coordinate A)) : list (Coordinate A * Coordinate A) :=
  combine l (tl l).

(** The segments added from left to right, starting from [0]: the sum the
    loop computes, in the order it computes it. *)
Definition sum_segments (l : list (Coordinate A)) : A :=
  fold_left (fun d pq => add d (segment (fst pq) (snd pq))) (consecutive l) (lit 0).

End Distance.

(** *** The arithmetic of terms

    The free instance: every operation builds the term that denotes it, so
    that [calculateDistance] can be run and the expression it evaluates be
    read off. *)
Inductive Term : Type :=
| TLit (z : Z)
| TVar (x : string)
| TAdd (a b : Term) | TSub (a b : Term) | TMul (a b : Term) | TDiv (a b : Term)
| TPi
| TSin (a : Term) | TCos (a : Term) | TSqrt (a : Term)
| TAtan2 (y x : Term).

#[export] Instance TermArith : Arith Term := {|
  lit := TLit; add := TAdd; sub := TSub; mul := TMul; div := TDiv;
  Math_PI := TPi; Math_sin := TSin; Math_cos := TCos; Math_sqrt := TSqrt;
  Math_atan2 := TAtan2
|}.

(** *** The arithmetic of JavaScript numbers

    A Number is an IEEE 754 binary64 value.  [+], [-], [*] and [/] are
    the correctly rounded operations of the format
    (round to nearest, ties to even), here those of the primitive floats;
    the engines compute [Math.sqrt] with the square root of the format.
    [Math.sin], [Math.cos] and [Math.atan2] return 'implementation
    approximated' values (ECMA-262, 21.3.2): they are given by the platform
    the code runs on, and are a parameter of the arithmetic. *)
Record Libm : Type := mkLibm {
  libm_sin   : float -> float;
  libm_cos   : float -> float;
  libm_atan2 : float -> float -> float
}.

(** The value of an integer literal. *)
Definition number (z : Z) : float :=
  match z with
  | Z0 => PrimFloat.zero
  | Zpos _ => PrimFloat.of_uint63 (Uint63Axioms.of_Z z)
  | Zneg p => PrimFloat.opp (PrimFloat.of_uint63 (Uint63Axioms.of_Z (Zpos p)))
  end.

(** [Math.PI]: the double nearest to pi, 3.141592653589793. *)
Definition PI : float := 0x1.921fb54442d18p+1%float.

Definition DoubleArith (m : Libm) : Arith float := {|
  lit := number;
  add := PrimFloat.add; sub := PrimFloat.sub;
  mul := PrimFloat.mul; div := PrimFloat.div;
  Math_PI := PI;
  Math_sin := libm_sin m; Math_cos := libm_cos m;
  Math_sqrt := PrimFloat.sqrt;
  Math_atan2 := libm_atan2 m
|}.

(** The point has finite coordinates, and the product of cosines that the
    loop body computes for it is a finite number. *)
Definition finite_point (m : Libm) (p : Coordinate float) : bool :=
  PrimFloat.is_finite (latitude p) && PrimFloat.is_finite (longitude p) &&
  PrimFloat.is_finite
    (libm_cos m (latitude p * (PI / number 180)) *
     libm_cos m (latitude p * (PI / number 180)))%float.

(** The segment of a pair of consecutive points. *)
Definition segment_of (m : Libm) (pq : Coordinate float * Coordinate float) : float :=
  segment (arith := DoubleArith m) (fst pq) (snd pq).

(** *** Sample platforms

    Values of the three functions at the arguments the sample runs need.
    Where the table has no value it answers [nan]; [nan] propagates
    through every operation of the loop, so a run that returns a number
    has used values of the table only. *)

Definition below (bound x : float) : bool := (PrimFloat.abs x <? bound)%float.

(** [Math.atan2(y, 1)] is [y] for [|y| < 2^-29]; a [NaN] argument gives
    [NaN]. *)
Definition sample_atan2 (y x : float) : float :=
  if (x =? 1)%float && below 0x1p-29 y then y else PrimFloat.nan.

(** Small angles: [Math.sin(x)] is [x] for [|x| < 2^-27], and
    [Math.cos(0)] is [1]. *)
Definition small_angles : Libm := {|
  libm_sin := fun x => if below 0x1p-27 x then x else PrimFloat.nan;
  libm_cos := fun x => if (x =? 0)%float then 1%float else PrimFloat.nan;
  libm_atan2 := sample_atan2
|}.

(** The latitudes 82 degrees south and north, and half a turn:
    [Math.sin(1.4311699866353502) = 0.9902680687415704],
    [Math.sin(1.5707963267948966) = 1] and
    [Math.cos(-1.4311699866353502) = Math.cos(1.4311699866353502) =
     0.13917310096006547]. *)
Definition near_antipodes : Libm := {|
  libm_sin := fun x =>
    if (x =? 0x1.6e6127ff9d971p+0)%float then 0x1.fb046a930947ap-1%float
    else if (x =? 0x1.921fb54442d18p+0)%float then 1%float
    else PrimFloat.nan;
  libm_cos := fun x =>
    if (PrimFloat.abs x =? 0x1.6e6127ff9d971p+0)%float then 0x1.1d06c968d9e1ap-3%float
    else PrimFloat.nan;
  libm_atan2 := sample_atan2
|}.

(** Sample circuits. *)
Definition pt (lat lon : string) : Coordinate Term :=
  mkCoordinate (TVar lat) (TVar lon).

(** [{latitude: -82, longitude: -59.4}] and its antipode
    [{latitude: 82, longitude: 120.6}]. *)
Definition south : Coordinate float :=
  mkCoordinate (-0x1.48p+6)%float (-0x1.db33333333333p+5)%float.

Definition north : Coordinate float :=
  mkCoordinate 0x1.48p+6%float 0x1.e266666666666p+6%float.

(** Four points on the equator, at the longitudes [0], [2^-84], [2^-83]
    and [2^-30] degrees. *)
Definition on_equator (lon : float) : Coordinate float := mkCoordinate 0%float lon.

Definition four_points : list (Coordinate float) :=
  [on_equator 0; on_equator 0x1p-84; on_equator 0x1p-83; on_equator 0x1p-30]%float.

End Haversine.

(** ** The race detail screen: [RaceDetail] *)

Module RaceDetail.

(** *** Data received from the race service

    Payloads are taken well formed: a race carries its fields, a circuit its
    way points.  A field of [Race] is still optional because the screen
    itself can build a race object without it (see [race_started_status]). *)

Inductive RaceStatus : Type := waiting | active | completed.

Definition RaceStatus_eqb (a b : RaceStatus) : bool :=
  match a, b with
  | waiting, waiting | active, active | completed, completed => true
  | _, _ => false
  end.

(** The object of the [race] hook; [None] is JavaScript's [undefined]. *)
Record Race : Type := mkRace {
  circuit_id   : option string;
  creator_id   : option string;
  status       : RaceStatus;
  participants : option (list string)
}.

Record Circuit : Type := mkCircuit {
  circuit_name : string;
  coordinates  : list (Q * Q)
}.

Inductive EntryStatus : Type := entry_active | entry_finished.

Record LeaderboardEntry : Type := mkEntry {
  user_name    : string;
  final_time   : option Q;
  entry_status : EntryStatus
}.

(** *** What the screen does to the outside *)

Inductive Request : Type :=
| GET_race (id : string)                 (* GET  /api/races/{id} *)
| GET_leaderboard (id : string)          (* GET  /api/races/{id}/leaderboard *)
| GET_circuit (cid : option string)      (* GET  /api/circuits/{cid} *)
| POST_join (id : string)                (* POST /api/races/{id}/join *)
| POST_start (id : string).              (* POST /api/races/{id}/start *)

(** Events sent on the channel. *)
Inductive Emit : Type :=
| join_race (race_id : string)
| position_update (race_id : string) (latitude longitude speed : Q)
| finish_race (race_id : string) (final_time : Q).

Inductive Effect : Type :=
| Http (r : Request)
| SocketOpen (user : option string)      (* io(`${WS_URL}/ws/${user?.id}`) *)
| SocketEmit (m : Emit)
| Alert (title message : string)
| AlertRaceComplete (finalTime : Q)      (* 'Race Complete!', the formatted time *)
| ConfirmFinish                          (* the 'Finish Race' dialog *)
| RequestPermission                      (* requestForegroundPermissionsAsync *)
| WatchPosition                          (* watchPositionAsync *)
| RemoveSubscription (sub : nat).        (* locationSubscription.current.remove() *)

(** *** State *)

(** An operation an [async] function is waiting for. *)
Inductive Await : Type :=
| AwaitRaceAndLeaderboard                (* loadRaceData: Promise.all *)
| AwaitCircuit (raceResponse : Race)     (* loadRaceData: the circuit *)
| AwaitJoin                              (* joinRace *)
| AwaitStart                             (* startRaceAsCreator *)
| AwaitPermission                        (* startRacing: the permission *)
| AwaitWatch.                            (* startRacing: watchPositionAsync *)

Record Socket : Type := mkSocket { socket_user : option string }.

(** The hooks ([race] ... [currentTime]), the refs ([socketRef],
    [locationSubscription]), the operations in flight, the 'Finish Race'
    dialogs that are open, each with the [raceStartTime] its [onPress]
    closure holds, and the subscriptions the location provider is
    serving. *)
Record State : Type := mkState {
  race          : option Race;
  circuit       : option Circuit;
  leaderboard   : list LeaderboardEntry;
  loading       : bool;
  isRacing      : bool;
  raceStartTime : option Z;
  currentSpeed  : Q;
  currentTime   : Z;
  socketRef     : option Socket;
  locationSubscription : option nat;
  pending       : list Await;
  finishDialogs : list (option Z);
  watchers      : list nat
}.

Definition with_race (v : option Race) (s : State) : State :=
  {| race := v; circuit := circuit s; leaderboard := leaderboard s;
     loading := loading s; isRacing := isRacing s; raceStartTime := raceStartTime s;
     currentSpeed := currentSpeed s; currentTime := currentTime s; socketRef := socketRef s;
     locationSubscription := locationSubscription s; pending := pending s; finishDialogs := finishDialogs s;
     watchers := watchers s |}.

Definition with_circuit (v : option Circuit) (s : State) : State :=
  {| race := race s; circuit := v; leaderboard := leaderboard s;
     loading := loading s; isRacing := isRacing s; raceStartTime := raceStartTime s;
     currentSpeed := currentSpeed s; currentTime := currentTime s; socketRef := socketRef s;
     locationSubscription := locationSubscription s; pending := pending s; finishDialogs := finishDialogs s;
     watchers := watchers s |}.

Definition with_leaderboard (v : list LeaderboardEntry) (s : State) : State :=
  {| race := race s; circuit := circuit s; leaderboard := v;
     loading := loading s; isRacing := isRacing s; raceStartTime := raceStartTime s;
     currentSpeed := currentSpeed s; currentTime := currentTime s; socketRef := socketRef s;
     locationSubscription := locationSubscription s; pending := pending s; finishDialogs := finishDialogs s;
     watchers := watchers s |}.

Definition with_loading (v : bool) (s : State) : State :=
  {| race := race s; circuit := circuit s; leaderboard := leaderboard s;
     loading := v; isRacing := isRacing s; raceStartTime := raceStartTime s;
     currentSpeed := currentSpeed s; currentTime := currentTime s; socketRef := socketRef s;
     locationSubscription := locationSubscription s; pending := pending s; finishDialogs := finishDialogs s;
     watchers := watchers s |}.

Definition with_isRacing (v : bool) (s : State) : State :=
  {| race := race s; circuit := circuit s; leaderboard := leaderboard s;
     loading := loading s; isRacing := v; raceStartTime := raceStartTime s;
     currentSpeed := currentSpeed s; currentTime := currentTime s; socketRef := socketRef s;
     locationSubscription := locationSubscription s; pending := pending s; finishDialogs := finishDialogs s;
     watchers := watchers s |}.

Definition with_raceStartTime (v : option Z) (s : State) : State :=
  {| race := race s; circuit := circuit s; leaderboard := leaderboard s;
     loading := loading s; isRacing := isRacing s; raceStartTime := v;
     currentSpeed := currentSpeed s; currentTime := currentTime s; socketRef := socketRef s;
     locationSubscription := locationSubscription s; pending := pending s; finishDialogs := finishDialogs s;
     watchers := watchers s |}.

Definition with_currentSpeed (v : Q) (s : State) : State :=
  {| race := race s; circuit := circuit s; leaderboard := leaderboard s;
     loading := loading s; isRacing := isRacing s; raceStartTime := raceStartTime s;
     currentSpeed := v; currentTime := currentTime s; socketRef := socketRef s;
     locationSubscription := locationSubscription s; pending := pending s; finishDialogs := finishDialogs s;
     watchers := watchers s |}.

Definition with_currentTime (v : Z) (s : State) : State :=
  {| race := race s; circuit := circuit s; leaderboard := leaderboard s;
     loading := loading s; isRacing := isRacing s; raceStartTime := raceStartTime s;
     currentSpeed := currentSpeed s; currentTime := v; socketRef := socketRef s;
     locationSubscription := locationSubscription s; pending := pending s; finishDialogs := finishDialogs s;
     watchers := watchers s |}.

Definition with_socketRef (v : option Socket) (s : State) : State :=
  {| race := race s; circuit := circuit s; leaderboard := leaderboard s;
     loading := loading s; isRacing := isRacing s; raceStartTime := raceStartTime s;
     currentSpeed := currentSpeed s; currentTime := currentTime s; socketRef := v;
     locationSubscription := locationSubscription s; pending := pending s; finishDialogs := finishDialogs s;
     watchers := watchers s |}.

Definition with_locationSubscription (v : option nat) (s : State) : State :=
  {| race := race s; circuit := circuit s; leaderboard := leaderboard s;
     loading := loading s; isRacing := isRacing s; raceStartTime := raceStartTime s;
     currentSpeed := currentSpeed s; currentTime := currentTime s; socketRef := socketRef s;
     locationSubscription := v; pending := pending s; finishDialogs := finishDialogs s;
     watchers := watchers s |}.

Definition with_pending (v : list Await) (s : State) : State :=
  {| race := race s; circuit := circuit s; leaderboard := leaderboard s;
     loading := loading s; isRacing := isRacing s; raceStartTime := raceStartTime s;
     currentSpeed := currentSpeed s; currentTime := currentTime s; socketRef := socketRef s;
     locationSubscription := locationSubscription s; pending := v; finishDialogs := finishDialogs s;
     watchers := watchers s |}.

Definition with_finishDialogs (v : list (option Z)) (s : State) : State :=
  {| race := race s; circuit := circuit s; leaderboard := leaderboard s;
     loading := loading s; isRacing := isRacing s; raceStartTime := raceStartTime s;
     currentSpeed := currentSpeed s; currentTime := currentTime s; socketRef := socketRef s;
     locationSubscription := locationSubscription s; pending := pending s; finishDialogs := v;
     watchers := watchers s |}.

Definition with_watchers (v : list nat) (s : State) : State :=
  {| race := race s; circuit := circuit s; leaderboard := leaderboard s;
     loading := loading s; isRacing := isRacing s; raceStartTime := raceStartTime s;
     currentSpeed := currentSpeed s; currentTime := currentTime s; socketRef := socketRef s;
     locationSubscription := locationSubscription s; pending := pending s; finishDialogs := finishDialogs s;
     watchers := v |}.

(** *** Pieces of code: state in, state and effects out *)

Definition Action : Type := State -> State * list Effect.

Definition skip : Action := fun s => (s, []).

Definition seq (a b : Action) : Action :=
  fun s => (fst (b (fst (a s))), snd (a s) ++ snd (b (fst (a s)))).

Notation "a ;; b" := (seq a b) (at level 61, right associativity).

Definition emit (e : Effect) : Action := fun s => (s, [e]).

Definition modify (f : State -> State) : Action := fun s => (f s, []).

(** [await]: the operation goes in flight, the function is suspended. *)
Definition await (a : Await) : Action :=
  modify (fun s => with_pending (pending s ++ [a]) s).

Definition setRace (r : Race) : Action := modify (with_race (Some r)).
Definition setCircuit (c : Circuit) : Action := modify (with_circuit (Some c)).
Definition setLeaderboard (l : list LeaderboardEntry) : Action := modify (with_leaderboard l).
Definition setLoading (b : bool) : Action := modify (with_loading b).
Definition setIsRacing (b : bool) : Action := modify (with_isRacing b).
Definition setRaceStartTime (t : Z) : Action := modify (with_raceStartTime (Some t)).
Definition setCurrentSpeed (v : Q) : Action := modify (with_currentSpeed v).
Definition setCurrentTime (t : Z) : Action := modify (with_currentTime t).

(** [x || d] on a string that may be missing: the empty string is falsy. *)
Definition or_string (x : option string) (d : string) : string :=
  match x with
  | Some ""%string => d
  | Some v => v
  | None => d
  end.

(** [x || 0] on a number that may be missing. *)
Definition or_zero (x : option Z) : Z :=
  match x with Some v => v | None => 0%Z end.

Definition or_zeroQ (x : option Q) : Q :=
  match x with Some v => v | None => 0%Q end.

Section Screen.

(** The route parameter [id] and [user?.id] of the auth context. Every
    request also carries the bearer token, left out of [Request]. *)
Variable id : string.
Variable user_id : option string.

(** **** [loadRaceData] *)

Definition loadRaceData : Action :=
  emit (Http (GET_race id)) ;;
  emit (Http (GET_leaderboard id)) ;;
  await AwaitRaceAndLeaderboard.

(** [connectWebSocket]. The handlers are registered on the new socket
    (see [on_channel]) before it is stored in [socketRef]. *)
Definition connectWebSocket : Action :=
  fun s =>
    match socketRef s with
    | Some _ => (s, [])
    | None =>
        (emit (SocketOpen user_id) ;;
         modify (with_socketRef (Some (mkSocket user_id)))) s
    end.

(** After [Promise.all]: both responses are stored, the circuit is asked for. *)
Definition loadRaceData_fetched (raceResponse : Race)
           (leaderboardResponse : list LeaderboardEntry) : Action :=
  setRace raceResponse ;;
  setLeaderboard leaderboardResponse ;;
  emit (Http (GET_circuit (circuit_id raceResponse))) ;;
  await (AwaitCircuit raceResponse).

(** After the circuit: the channel is connected for a race that is
    [active] or [waiting]; then [finally]. *)
Definition loadRaceData_circuit (raceResponse : Race) (circuitResponse : Circuit)
  : Action :=
  setCircuit circuitResponse ;;
  (match status raceResponse with
   | active | waiting => connectWebSocket
   | completed => skip
   end) ;;
  setLoading false.

(** [catch] then [finally], for a rejection of either [await]. *)
Definition loadRaceData_failed : Action :=
  emit (Alert "Error" "Failed to load race data") ;;
  setLoading false.

(** **** [startRacing] *)

Definition startRacing : Action :=
  emit RequestPermission ;; await AwaitPermission.

Definition startRacing_permission (granted : bool) (now : Z) : Action :=
  if granted then
    setIsRacing true ;;
    setRaceStartTime now ;;
    emit WatchPosition ;;
    await AwaitWatch
  else
    emit (Alert "Permission Denied" "Location permission is required to race").

Definition startRacing_watching (sub : nat) : Action :=
  modify (fun s => with_watchers (watchers s ++ [sub])
                     (with_locationSubscription (Some sub) s)).

(** The callback of [watchPositionAsync]. *)
Definition on_position (speed : option Q) (latitude longitude : Q) : Action :=
  let speed := or_zeroQ speed in
  setCurrentSpeed (speed * (36 # 10))%Q ;;
  (fun s =>
     match socketRef s with
     | Some _ => emit (SocketEmit (position_update id latitude longitude speed)) s
     | None => skip s
     end).

(** **** The handlers of the channel *)

(** [setRace(prev => ({ ...prev, status: 'active' }))]; spreading [null]
    gives an object with the status alone. *)
Definition race_started_status (prev : option Race) : Race :=
  match prev with
  | Some r => mkRace (circuit_id r) (creator_id r) active (participants r)
  | None => mkRace None None active None
  end.

Definition on_connect : Action := emit (SocketEmit (join_race id)).

Definition on_race_started : Action :=
  emit (Alert "Race Started!" "The race has begun. Good luck!") ;;
  modify (fun s => with_race (Some (race_started_status (race s))) s) ;;
  startRacing.

Definition on_participant_position : Action := skip.

Definition on_participant_finished : Action := loadRaceData.

(** **** [joinRace] and [startRaceAsCreator] *)

Definition joinRace : Action :=
  emit (Http (POST_join id)) ;; await AwaitJoin.

Definition joinRace_ok : Action :=
  emit (Alert "Success" "You joined the race!") ;; loadRaceData.

Definition joinRace_failed (detail : option string) : Action :=
  emit (Alert "Error" (or_string detail "Failed to join race")).

Definition startRaceAsCreator : Action :=
  emit (Http (POST_start id)) ;; await AwaitStart.

Definition startRaceAsCreator_ok : Action := skip.

Definition startRaceAsCreator_failed (detail : option string) : Action :=
  emit (Alert "Error" (or_string detail "Failed to start race")).

(** **** [finishRace] *)

(** [Alert.alert('Finish Race', ...)]: one more dialog is shown; its
    'Finish' closure holds the [raceStartTime] of the render the button was
    pressed in. *)
Definition finishRace : Action :=
  emit ConfirmFinish ;;
  modify (fun s => with_finishDialogs (finishDialogs s ++ [raceStartTime s]) s).

(** [(Date.now() - (raceStartTime || 0)) / 1000] *)
Definition finalTime (raceStartTime : option Z) (now : Z) : Q :=
  (inject_Z (now - or_zero raceStartTime) / inject_Z 1000)%Q.

(** [onPress] of 'Finish'. *)
Definition finishRace_confirmed (raceStartTime : option Z) (now : Z) : Action :=
  (fun s =>
     match socketRef s with
     | Some _ => emit (SocketEmit (finish_race id (finalTime raceStartTime now))) s
     | None => skip s
     end) ;;
  setIsRacing false ;;
  (fun s =>
     match locationSubscription s with
     | Some sub =>
         (emit (RemoveSubscription sub) ;;
          modify (fun s => with_watchers
                             (filter (fun w => negb (Nat.eqb w sub)) (watchers s)) s)) s
     | None => skip s
     end) ;;
  emit (AlertRaceComplete (finalTime raceStartTime now)) ;;
  loadRaceData.

(** **** The timer: the callback of [setInterval], every 100 ms while
    [isRacing && raceStartTime] *)
Definition on_tick (now : Z) : Action :=
  fun s =>
    match isRacing s, raceStartTime s with
    | true, Some t =>
        if (t =? 0)%Z then skip s else setCurrentTime (now - t)%Z s
    | _, _ => skip s
    end.

(** **** What is rendered *)

Inductive Button : Type := JoinRace | StartRace | BeginRacing | FinishRace.

Definition Button_eqb (a b : Button) : bool :=
  match a, b with
  | JoinRace, JoinRace | StartRace, StartRace
  | BeginRacing, BeginRacing | FinishRace, FinishRace => true
  | _, _ => false
  end.

Definition option_string_eqb (a b : option string) : bool :=
  match a, b with
  | Some x, Some y => String.eqb x y
  | None, None => true
  | _, _ => false
  end.

(** [race.creator_id === user?.id] *)
Definition isCreator (r : Race) : bool := option_string_eqb (creator_id r) user_id.

(** [race.participants.includes(user?.id)] on the array [ps] *)
Definition hasJoined (ps : list string) : bool :=
  match user_id with
  | Some u => existsb (String.eqb u) ps
  | None => false
  end.

(** [isCreator && race.status === 'waiting' && race.participants.length > 0] *)
Definition canStart (r : Race) (ps : list string) : bool :=
  isCreator r && RaceStatus_eqb (status r) waiting && (0 <? length ps).

(** The action buttons, in the order of the JSX. *)
Definition actionButtons (r : Race) (ps : list string) (racing : bool) : list Button :=
  (if RaceStatus_eqb (status r) waiting && negb (hasJoined ps) then [JoinRace] else []) ++
  (if canStart r ps then [StartRace] else []) ++
  (if RaceStatus_eqb (status r) active && hasJoined ps && negb racing
   then [BeginRacing] else []) ++
  (if racing then [FinishRace] else []).

Inductive View : Type :=
| Spinner                              (* if (loading) *)
| RaceNotFound                         (* if (!race || !circuit) *)
| RenderError                          (* TypeError: race.participants is undefined *)
| RaceView (badge : RaceStatus) (racingOverlay : bool)
           (board : list LeaderboardEntry) (buttons : list Button).

Definition render (s : State) : View :=
  if loading s then Spinner
  else
    match race s, circuit s with
    | Some r, Some _ =>
        match participants r with
        | Some ps =>
            RaceView (status r) (isRacing s) (leaderboard s)
                     (actionButtons r ps (isRacing s))
        | None => RenderError
        end
    | _, _ => RaceNotFound
    end.

(** The button is on the screen. *)
Definition offered (s : State) (b : Button) : bool :=
  match render s with
  | RaceView _ _ _ buttons => existsb (Button_eqb b) buttons
  | _ => false
  end.

Definition onPress (b : Button) : Action :=
  match b with
  | JoinRace => joinRace
  | StartRace => startRaceAsCreator
  | BeginRacing => startRacing
  | FinishRace => finishRace
  end.

(** **** Events *)

Inductive HttpResult : Type :=
| Ok
| Failed (detail : option string).    (* error.response?.data?.detail *)

(** How an operation in flight ends. *)
Inductive Outcome : Type :=
| Fetched (r : option (Race * list LeaderboardEntry))
| CircuitFetched (c : option Circuit)
| Posted (r : HttpResult)
| Permission (granted : bool) (now : Z)
| Watching (sub : nat).

Inductive ChannelEvent : Type :=
| connect
| race_started
| participant_position (user : string)
| participant_finished (user : string).

Inductive Event : Type :=
| Resolve (i : nat) (o : Outcome)      (* the i-th operation in flight ends *)
| Channel (e : ChannelEvent)
| Press (b : Button)
| DialogCancel (i : nat)               (* 'Cancel' on the i-th open dialog *)
| DialogFinish (i : nat) (now : Z)     (* 'Finish' on the i-th open dialog *)
| Tick (now : Z)
| Position (speed : option Q) (latitude longitude : Q).

(** The rest of the suspended function, for an outcome of its operation. *)
Definition continuation (a : Await) (o : Outcome) : option Action :=
  match a, o with
  | AwaitRaceAndLeaderboard, Fetched (Some (r, l)) => Some (loadRaceData_fetched r l)
  | AwaitRaceAndLeaderboard, Fetched None => Some loadRaceData_failed
  | AwaitCircuit r, CircuitFetched (Some c) => Some (loadRaceData_circuit r c)
  | AwaitCircuit _, CircuitFetched None => Some loadRaceData_failed
  | AwaitJoin, Posted Ok => Some joinRace_ok
  | AwaitJoin, Posted (Failed d) => Some (joinRace_failed d)
  | AwaitStart, Posted Ok => Some startRaceAsCreator_ok
  | AwaitStart, Posted (Failed d) => Some (startRaceAsCreator_failed d)
  | AwaitPermission, Permission g now => Some (startRacing_permission g now)
  | AwaitWatch, Watching sub => Some (startRacing_watching sub)
  | _, _ => None
  end.

Definition drop_pending (i : nat) : Action :=
  modify (fun s => with_pending (firstn i (pending s) ++ skipn (S i) (pending s)) s).

(** A button of a dialog dismisses it. *)
Definition close_dialog (i : nat) : Action :=
  modify (fun s => with_finishDialogs
                     (firstn i (finishDialogs s) ++ skipn (S i) (finishDialogs s)) s).

Definition on_channel (e : ChannelEvent) : Action :=
  match e with
  | connect => on_connect
  | race_started => on_race_started
  | participant_position _ => on_participant_position
  | participant_finished _ => on_participant_finished
  end.

(** One event. An event that cannot occur in the state (a button that is
    not on the screen, a channel event without a socket, an outcome of no
    operation in flight, ...) changes nothing. *)
Definition step (s : State) (e : Event) : State * list Effect :=
  match e with
  | Resolve i o =>
      match nth_error (pending s) i with
      | Some a =>
          match continuation a o with
          | Some k => (drop_pending i ;; k) s
          | None => (s, [])
          end
      | None => (s, [])
      end
  | Channel c =>
      match socketRef s with
      | Some _ => on_channel c s
      | None => (s, [])
      end
  | Press b => if offered s b then onPress b s else (s, [])
  | DialogCancel i =>
      match nth_error (finishDialogs s) i with
      | Some _ => close_dialog i s
      | None => (s, [])
      end
  | DialogFinish i now =>
      match nth_error (finishDialogs s) i with
      | Some t => (close_dialog i ;; finishRace_confirmed t now) s
      | None => (s, [])
      end
  | Tick now => on_tick now s
  | Position speed latitude longitude =>
      match watchers s with
      | [] => (s, [])
      | _ :: _ => on_position speed latitude longitude s
      end
  end.

Fixpoint run (s : State) (events : list Event) : State * list Effect :=
  match events with
  | [] => (s, [])
  | e :: rest =>
      (fst (run (fst (step s e)) rest),
       snd (step s e) ++ snd (run (fst (step s e)) rest))
  end.

(** The first render and the effect [useEffect(() => { loadRaceData(); ... })]. *)
Definition initial : State :=
  {| race := None; circuit := None; leaderboard := [];
     loading := true; isRacing := false; raceStartTime := None;
     currentSpeed := 0%Q; currentTime := 0%Z;
     socketRef := None; locationSubscription := None;
     pending := []; finishDialogs := []; watchers := [] |}.

Definition mount : State * list Effect := loadRaceData initial.

(** The screen after [events], and everything it did. *)
Definition session (events : list Event) : State * list Effect :=
  (fst (run (fst mount) events), snd mount ++ snd (run (fst mount) events)).

(** **** Observations on effects *)

Definition is_open (e : Effect) : bool :=
  match e with SocketOpen _ => true | _ => false end.

Definition is_join_request (e : Effect) : bool :=
  match e with Http (POST_join _) => true | _ => false end.

Definition is_start_request (e : Effect) : bool :=
  match e with Http (POST_start _) => true | _ => false end.

Definition is_finish_race (e : Effect) : bool :=
  match e with SocketEmit (finish_race _ _) => true | _ => false end.

Definition is_remove (e : Effect) : bool :=
  match e with RemoveSubscription _ => true | _ => false end.

(** The status shown, if a race is held. *)
Definition localStatus (s : State) : option RaceStatus :=
  option_map status (race s).

(** **** Predicates on states and runs *)

(** The order [waiting], [active], [completed]; no race held comes first. *)
Definition rank (st : RaceStatus) : nat :=
  match st with waiting => 0 | active => 1 | completed => 2 end.

Definition status_le (a b : option RaceStatus) : Prop :=
  match a, b with
  | None, _ => True
  | Some x, Some y => (rank x <= rank y)%nat
  | Some _, None => False
  end.

(** The event brings no status older than the one held: [race_started]
    does not come once the race is shown completed, and a fetched race is
    not behind the local one. *)
Definition in_order (s : State) (e : Event) : Prop :=
  match e with
  | Channel race_started => localStatus s <> Some completed
  | Resolve _ (Fetched (Some (r, _))) => status_le (localStatus s) (Some (status r))
  | _ => True
  end.

Fixpoint in_order_run (s : State) (events : list Event) : Prop :=
  match events with
  | [] => True
  | e :: rest => in_order s e /\ in_order_run (fst (step s e)) rest
  end.


(** A session without a channel: the first load is still running, or has
    failed, or has found the race completed. *)
Definition quiet (s : State) : Prop :=
  isRacing s = false /\ finishDialogs s = [] /\
  ((circuit s = None /\
    (pending s = [] \/ pending s = [AwaitRaceAndLeaderboard] \/
     exists r, pending s = [AwaitCircuit r] /\ race s = Some r)) \/
   (pending s = [] /\ exists r, race s = Some r /\ status r = completed)).

(** What holds of every state of a session. *)
Definition consistent (s : State) : Prop :=
  (isRacing s = true -> raceStartTime s <> None) /\
  (forall t, In t (finishDialogs s) -> t <> None) /\
  (socketRef s = None -> quiet s).

End Screen.

(** *** Sample sessions *)

Definition race7 : string := "race-7".
Definition alice : option string := Some "alice"%string.

(** A race created by alice, and one created by bob. *)
Definition a_race (st : RaceStatus) (ps : list string) : Race :=
  mkRace (Some "circuit-1"%string) (Some "alice"%string) st (Some ps).

Definition bobs_race (st : RaceStatus) (ps : list string) : Race :=
  mkRace (Some "circuit-1"%string) (Some "bob"%string) st (Some ps).

Definition track : Circuit :=
  mkCircuit "Track" [(0 # 1, 0 # 1); (1 # 100, 1 # 100)]%Q.

Definition bob_finished : LeaderboardEntry :=
  mkEntry "bob" (Some (61 # 1)%Q) entry_finished.

(** The two responses of a successful load. *)
Definition loaded (r : Race) : list Event :=
  [Resolve 0 (Fetched (Some (r, []))); Resolve 0 (CircuitFetched (Some track))].

(** alice looking at her race, with the state after [events]. *)
Definition alice_after (events : list Event) : State :=
  fst (session race7 alice events).

Definition alice_did (events : list Event) : list Effect :=
  snd (session race7 alice events).

(** alice created the race, bob joined it, alice did not. The race starts,
    the location permission is granted at 5000 ms, the provider starts
    serving the subscription and delivers a position. *)
Definition started_unjoined : list Event :=
  loaded (a_race waiting ["bob"%string]) ++
  [Channel race_started; Resolve 0 (Permission true 5000); Resolve 0 (Watching 1);
   Position (Some (5 # 1)%Q) (0 # 1)%Q (0 # 1)%Q].

(** alice looks at bob's open race and presses 'Join Race' twice. *)
Definition double_tap : list Event :=
  loaded (bobs_race waiting ["bob"%string]) ++ [Press JoinRace; Press JoinRace].

(** alice has joined a running race, begins racing at 1000 ms and presses
    'Finish Race'. *)
Definition about_to_finish : list Event :=
  loaded (a_race active ["alice"%string]) ++
  [Press BeginRacing; Resolve 0 (Permission true 1000); Resolve 0 (Watching 1);
   Press FinishRace].

(** A reload after bob finished shows the race completed. *)
Definition seen_completed : list Event :=
  loaded (a_race active ["bob"%string]) ++
  [Channel (participant_finished "bob");
   Resolve 0 (Fetched (Some (a_race completed ["bob"%string], [bob_finished])));
   Resolve 0 (CircuitFetched (Some track))].

(** alice joins bob's race; the reload is answered with the race still
    waiting, but the answer arrives after [race_started]. *)
Definition late_answer : list Event :=
  loaded (bobs_race waiting ["bob"%string]) ++
  [Press JoinRace; Resolve 0 (Posted Ok); Channel race_started;
   Resolve 0 (Fetched (Some (bobs_race waiting ["bob"; "alice"]%string, [])))].

(** The first load, with the circuit request failing. *)
Definition circuit_fails : list Event :=
  [Resolve 0 (Fetched (Some (a_race waiting ["bob"%string], [bob_finished])));
   Resolve 0 (CircuitFetched None)].



(** alice began racing at 1000 ms; when she confirms the finish the clock
    of the device reads 400 ms. *)
Definition clock_went_back : list Event :=
  about_to_finish ++ [DialogFinish 0 400].

(** alice presses 'Finish Race' a second time before she answers the first
    dialog, and confirms both. *)
Definition finish_twice : list Event :=
  about_to_finish ++ [Press FinishRace; DialogFinish 0 62500; DialogFinish 0 70000].

(** alice begins racing and finishes before [watchPositionAsync] has
    answered; the subscription arrives afterwards and delivers a position. *)
Definition finish_before_watching : list Event :=
  loaded (a_race active ["alice"%string]) ++
  [Press BeginRacing; Resolve 0 (Permission true 1000);
   Press FinishRace; DialogFinish 0 62500;
   Resolve 0 (Watching 1);
   Position (Some (5 # 1)%Q) (0 # 1)%Q (0 # 1)%Q].

End RaceDetail.

(** ** The circuit detail screen: [createRace] *)

Module CircuitDetail.

Inductive Effect : Type :=
| POST_races (circuit_id : string)       (* POST /api/races { circuit_id } *)
| Alert (title message : string).

(** The hooks [circuit], [loading] and [creating], and the number of
    [createRace] calls waiting for their response. *)
Record State : Type := mkState {
  circuit  : option string;
  loading  : bool;
  creating : bool;
  inflight : nat
}.

Inductive Event : Type :=
| PressCreateRace
| Created (detail : option (option string)).  (* [None]: success *)

Section Screen.

Variable id : string.

(** [createRace] up to its [await]: [setCreating(true)], then the request. *)
Definition createRace (s : State) : State * list Effect :=
  ({| circuit := circuit s; loading := loading s; creating := true;
      inflight := S (inflight s) |},
   [POST_races id]).

(** The response, then [finally { setCreating(false) }]. *)
Definition createRace_done (detail : option (option string)) (s : State)
  : State * list Effect :=
  ({| circuit := circuit s; loading := loading s; creating := false;
      inflight := pred (inflight s) |},
   [match detail with
    | None => Alert "Success" "Race created! Waiting for other racers to join."
    | Some d => Alert "Error" (RaceDetail.or_string d "Failed to create race")
    end]).

(** The button is rendered once the circuit is loaded, with
    [disabled={creating}]. *)
Definition enabled (s : State) : bool :=
  negb (loading s) &&
  match circuit s with Some _ => true | None => false end &&
  negb (creating s).

Definition step (s : State) (e : Event) : State * list Effect :=
  match e with
  | PressCreateRace => if enabled s then createRace s else (s, [])
  | Created d =>
      match inflight s with
      | O => (s, [])
      | S _ => createRace_done d s
      end
  end.

End Screen.

End CircuitDetail.


(** ** The circuit creation screen: way points and [saveCircuit] *)

Module CreateCircuit.
Import Haversine.

(** A JavaScript string, as its UTF-16 code units. *)
Definition JSString : Type := list N.

(** The code units [trim] takes away: WhiteSpace and LineTerminator of
    ECMAScript. *)
Definition WhiteSpace : list N :=
  [9; 10; 11; 12; 13; 32; 160; 5760;
   8192; 8193; 8194; 8195; 8196; 8197; 8198; 8199; 8200; 8201; 8202;
   8232; 8233; 8239; 8287; 12288; 65279]%N.

Definition is_white_space (c : N) : bool := existsb (N.eqb c) WhiteSpace.

Fixpoint trimStart (s : JSString) : JSString :=
  match s with
  | c :: rest => if is_white_space c then trimStart rest else s
  | [] => []
  end.

(** [s.trim()] *)
Definition trim (s : JSString) : JSString :=
  rev (trimStart (rev (trimStart s))).

(** [!s]: the empty string is falsy. *)
Definition is_empty (s : JSString) : bool :=
  match s with [] => true | _ :: _ => false end.

(** The body of [POST /api/circuits]. *)
Record Body (A : Type) : Type := mkBody {
  name             : JSString;
  body_coordinates : list (Coordinate A);
  distance         : A;
  is_public        : bool
}.

Inductive Effect (A : Type) : Type :=
| POST_circuits (b : Body A)
| Alert (title message : string)
| ConfirmClear.                           (* the 'Clear Circuit' dialog *)

Arguments Alert {A} title message.
Arguments ConfirmClear {A}.

(** The hooks [coordinates], [circuitName], [isPublic] and [saving], the
    number of [saveCircuit] calls waiting for their response, and the
    number of 'Clear Circuit' dialogs that are open. *)
Record State (A : Type) : Type := mkState {
  coordinates : list (Coordinate A);
  circuitName : JSString;
  isPublic    : bool;
  saving      : bool;
  inflight    : nat;
  clearDialogs : nat
}.

Inductive Event (A : Type) : Type :=
| MapPress (coordinate : Coordinate A)    (* onPress of the map *)
| PressUndo
| PressClear
| DialogClear                             (* 'Clear' on an open dialog *)
| DialogCancel                            (* 'Cancel' on an open dialog *)
| ChangeText (text : JSString)            (* onChangeText of the name *)
| ValueChange (value : bool)              (* onValueChange of the switch *)
| PressSave
| Saved (detail : option (option string)). (* the response; [None]: success *)

Arguments PressUndo {A}.
Arguments PressClear {A}.
Arguments DialogClear {A}.
Arguments DialogCancel {A}.
Arguments ChangeText {A} text.
Arguments ValueChange {A} value.
Arguments PressSave {A}.
Arguments Saved {A} detail.

Section Screen.

Context {A : Type} {arith : Arith A}.

Definition with_coordinates (v : list (Coordinate A)) (s : State A) : State A :=
  {| coordinates := v; circuitName := circuitName s; isPublic := isPublic s;
     saving := saving s; inflight := inflight s; clearDialogs := clearDialogs s |}.

Definition with_clearDialogs (v : nat) (s : State A) : State A :=
  {| coordinates := coordinates s; circuitName := circuitName s;
     isPublic := isPublic s; saving := saving s; inflight := inflight s;
     clearDialogs := v |}.

(** [handleMapPress]: [setCoordinates([...coordinates, coordinate])] *)
Definition handleMapPress (coordinate : Coordinate A) (s : State A) : State A :=
  with_coordinates (coordinates s ++ [coordinate]) s.

(** [undoLastPoint]: [coordinates.slice(0, -1)] when there is a point. *)
Definition undoLastPoint (s : State A) : State A :=
  if 0 <? length (coordinates s)
  then with_coordinates (removelast (coordinates s)) s
  else s.

(** [saveCircuit] up to its [await]. The body is built inside [try]: were
    [calculateDistance] to throw, [catch] and [finally] would run at once. *)
Definition saveCircuit (s : State A) : State A * list (Effect A) :=
  if is_empty (trim (circuitName s)) then
    (s, [Alert "Error" "Please enter a circuit name"])
  else if length (coordinates s) <? 2 then
    (s, [Alert "Error" "Please add at least 2 points to create a circuit"])
  else
    match calculateDistance (coordinates s) with
    | Some d =>
        ({| coordinates := coordinates s; circuitName := circuitName s;
            isPublic := isPublic s; saving := true;
            inflight := S (inflight s); clearDialogs := clearDialogs s |},
         [POST_circuits (mkBody (circuitName s) (coordinates s) d (isPublic s))])
    | None =>
        ({| coordinates := coordinates s; circuitName := circuitName s;
            isPublic := isPublic s; saving := false;
            inflight := inflight s; clearDialogs := clearDialogs s |},
         [Alert "Error" "Failed to create circuit"])
    end.

(** The response, then [finally { setSaving(false) }]. *)
Definition saveCircuit_done (detail : option (option string)) (s : State A)
  : State A * list (Effect A) :=
  ({| coordinates := coordinates s; circuitName := circuitName s;
      isPublic := isPublic s; saving := false;
      inflight := pred (inflight s); clearDialogs := clearDialogs s |},
   [match detail with
    | None => Alert "Success" "Circuit created successfully!"
    | Some d => Alert "Error" (RaceDetail.or_string d "Failed to create circuit")
    end]).

(** One event. 'Undo' and 'Clear' are disabled without a point, the save
    button while [saving]; the buttons of a dialog exist while it is
    open. *)
Definition step (s : State A) (e : Event A) : State A * list (Effect A) :=
  match e with
  | MapPress c => (handleMapPress c s, [])
  | PressUndo =>
      if length (coordinates s) =? 0 then (s, []) else (undoLastPoint s, [])
  | PressClear =>
      if length (coordinates s) =? 0 then (s, [])
      else (with_clearDialogs (S (clearDialogs s)) s, [ConfirmClear])
  | DialogClear =>
      match clearDialogs s with
      | O => (s, [])
      | S n => (with_coordinates [] (with_clearDialogs n s), [])
      end
  | DialogCancel =>
      match clearDialogs s with
      | O => (s, [])
      | S n => (with_clearDialogs n s, [])
      end
  | ChangeText t =>
      ({| coordinates := coordinates s; circuitName := t; isPublic := isPublic s;
          saving := saving s; inflight := inflight s;
          clearDialogs := clearDialogs s |}, [])
  | ValueChange b =>
      ({| coordinates := coordinates s; circuitName := circuitName s;
          isPublic := b; saving := saving s; inflight := inflight s;
          clearDialogs := clearDialogs s |}, [])
  | PressSave => if saving s then (s, []) else saveCircuit s
  | Saved d =>
      match inflight s with
      | O => (s, [])
      | S _ => saveCircuit_done d s
      end
  end.

Fixpoint run (s : State A) (events : list (Event A)) : State A * list (Effect A) :=
  match events with
  | [] => (s, [])
  | e :: rest =>
      (fst (run (fst (step s e)) rest),
       snd (step s e) ++ snd (run (fst (step s e)) rest))
  end.

(** The first render. *)
Definition initial : State A :=
  {| coordinates := []; circuitName := []; isPublic := true;
     saving := false; inflight := 0; clearDialogs := 0 |}.

Definition is_post (e : Effect A) : bool :=
  match e with POST_circuits _ => true | _ => false end.

End Screen.

(** A circuit of two points named "Loop". *)
Definition loop_drawn : State Term :=
  {| coordinates := [pt "a" "b"; pt "c" "d"];
     circuitName := [76; 111; 111; 112]%N; isPublic := true;
     saving := false; inflight := 0; clearDialogs := 0 |}.

End CreateCircuit.


(** ** The race detail screen: permission, clock and cleanup *)

Module RaceDetailMore.
Import RaceDetail.

(** The event is the location permission being granted. *)
Definition grants (e : Event) : bool :=
  match e with
  | Resolve _ (Permission true _) => true
  | _ => false
  end.

(** What only a racing screen does. *)
Definition is_racing_effect (e : Effect) : bool :=
  match e with
  | WatchPosition | RemoveSubscription _
  | SocketEmit (position_update _ _ _ _) | SocketEmit (finish_race _ _) => true
  | _ => false
  end.

(** A screen that is not racing and is not about to. *)
Definition calm (s : State) : Prop :=
  isRacing s = false /\ finishDialogs s = [] /\ watchers s = [] /\
  ~ In AwaitWatch (pending s).

(** [Date.now()] as read by the code the event runs. *)
Definition stamp (e : Event) : option Z :=
  match e with
  | Resolve _ (Permission _ now) => Some now
  | DialogFinish _ now => Some now
  | Tick now => Some now
  | _ => None
  end.

(** The clock never goes back: from the time [t] on, the time stamps of
    the events do not decrease. *)
Fixpoint clock_ok (t : Z) (events : list Event) : Prop :=
  match events with
  | [] => True
  | e :: rest =>
      match stamp e with
      | Some now => (t <= now)%Z /\ clock_ok now rest
      | None => clock_ok t rest
      end
  end.

Definition finish_not_negative (e : Effect) : Prop :=
  match e with
  | SocketEmit (finish_race _ t) => (0 <= t)%Q
  | _ => True
  end.

(** The times held by the screen are not after the clock. *)
Definition timed (t : Z) (s : State) : Prop :=
  (isRacing s = true -> raceStartTime s <> None) /\
  (forall t0, raceStartTime s = Some t0 -> (t0 <= t)%Z) /\
  (forall c, In c (finishDialogs s) -> exists t0, c = Some t0 /\ (t0 <= t)%Z) /\
  (0 <= currentTime s)%Z.




End RaceDetailMore.

(** ** The circuit detail screen: runs *)

Module CircuitDetailMore.
Import CircuitDetail.

Fixpoint run (id : string) (s : State) (events : list Event) : State * list Effect :=
  match events with
  | [] => (s, [])
  | e :: rest =>
      (fst (run id (fst (step id s e)) rest),
       snd (step id s e) ++ snd (run id (fst (step id s e)) rest))
  end.

(** The screen once [loadCircuit] has stored the circuit. *)
Definition showing (circuit : string) : State :=
  {| circuit := Some circuit; loading := false; creating := false; inflight := 0 |}.

End CircuitDetailMore.

(* ================================================================== *)
(** * Part II.  Properties *)
(* ================================================================== *)

(** ** Circuit distance *)

Module HaversineFacts.
Import Haversine.

Section AnyArithmetic.

Context {A : Type} {arith : Arith A}.

Lemma consecutive_cons2 (p1 p2 : Coordinate A) rest :
  consecutive (p1 :: p2 :: rest) = (p1, p2) :: consecutive (p2 :: rest).
Proof. reflexivity. Qed.

(** The loop started at index [length done] on [done ++ todo] adds the
    segments of [todo] to the accumulator, and the fuel [length] of the
    array is enough for it to end. *)
Lemma for_loop_consecutive (todo done : list (Coordinate A)) :
  forall fuel d,
    (1 <= fuel)%nat -> (length todo <= fuel)%nat ->
    for_loop fuel (done ++ todo) (length done) d =
    Some (fold_left (fun d pq => add d (segment (fst pq) (snd pq)))
                    (consecutive todo) d).
Proof.
  revert done.
  induction todo as [| p1 [| p2 rest] IH]; intros done fuel d Hf Hl.
  - destruct fuel as [| fuel]; [lia |]. simpl.
    rewrite app_nil_r.
    replace (length done <? length done - 1) with false; [reflexivity |].
    symmetry. apply Nat.ltb_ge. lia.
  - destruct fuel as [| fuel]; [lia |]. simpl.
    rewrite length_app. simpl.
    replace (length done <? length done + 1 - 1) with false; [reflexivity |].
    symmetry. apply Nat.ltb_ge. lia.
  - destruct fuel as [| fuel]; [lia |].
    cbn [for_loop].
    replace (length done <? length (done ++ p1 :: p2 :: rest) - 1) with true.
    2:{ symmetry. apply Nat.ltb_lt. rewrite length_app. simpl. lia. }
    unfold loop_body.
    rewrite nth_error_app2 by lia. rewrite Nat.sub_diag. cbn [nth_error].
    rewrite nth_error_app2 by lia.
    replace (length done + 1 - length done)%nat with 1%nat by lia.
    cbn [nth_error].
    rewrite consecutive_cons2. cbn [fold_left fst snd].
    specialize (IH (done ++ [p1]) fuel (add d (segment p1 p2))).
    rewrite <- app_assoc in IH. cbn [app] in IH.
    rewrite length_app in IH. cbn [length] in IH.
    apply IH; simpl in Hl; lia.
Qed.

(** [calculateDistance] always returns, and returns the segments of the
    consecutive pairs added from left to right. *)
Lemma calculateDistance_sum_segments (l : list (Coordinate A)) :
  calculateDistance l = Some (sum_segments l).
Proof.
  unfold calculateDistance, sum_segments.
  destruct (length l <? 2) eqn:Hlen.
  - apply Nat.ltb_lt in Hlen.
    destruct l as [| p [| q r]]; simpl in Hlen; try lia; reflexivity.
  - apply Nat.ltb_ge in Hlen.
    apply (for_loop_consecutive l []); lia.
Qed.

Lemma calculateDistance_short :
  calculateDistance (@nil (Coordinate A)) = Some (lit 0) /\
  forall p : Coordinate A, calculateDistance [p] = Some (lit 0).
Proof. split; reflexivity. Qed.

(** The pairs around a point of the sequence. *)
Lemma consecutive_app (l1 : list (Coordinate A)) (p : Coordinate A)
      (rest : list (Coordinate A)) :
  consecutive (l1 ++ p :: rest) = consecutive (l1 ++ [p]) ++ consecutive (p :: rest).
Proof.
  induction l1 as [| a [| b l1] IH].
  - reflexivity.
  - cbn [app]. rewrite !consecutive_cons2. reflexivity.
  - change ((a :: b :: l1) ++ p :: rest) with (a :: b :: (l1 ++ p :: rest)).
    change ((a :: b :: l1) ++ [p]) with (a :: b :: (l1 ++ [p])).
    rewrite !consecutive_cons2.
    change (b :: l1 ++ p :: rest) with ((b :: l1) ++ p :: rest).
    change (b :: l1 ++ [p]) with ((b :: l1) ++ [p]).
    rewrite IH. reflexivity.
Qed.

(** The pairs of the reversed sequence: those of the sequence, each one
    turned round, from the last to the first. *)
Lemma consecutive_rev (l : list (Coordinate A)) :
  consecutive (rev l) = rev (map (fun pq => (snd pq, fst pq)) (consecutive l)).
Proof.
  induction l as [| a [| b l] IH].
  - reflexivity.
  - reflexivity.
  - rewrite consecutive_cons2. cbn [map rev fst snd] in *.
    rewrite <- IH. rewrite <- app_assoc. cbn [app].
    rewrite consecutive_app. reflexivity.
Qed.

End AnyArithmetic.

(** The expression evaluated for a circuit of three points: two segments,
    added to [0] from left to right. *)
Example calculateDistance_three_terms :
  calculateDistance [pt "a" "b"; pt "c" "d"; pt "e" "f"] =
  Some (TAdd (TAdd (TLit 0) (segment (pt "a" "b") (pt "c" "d")))
             (segment (pt "c" "d") (pt "e" "f"))).
Proof. reflexivity. Qed.


(** *** IEEE 754 operations

    Facts on the operations of [SpecFloat], which specify those of the
    primitive floats. *)
Section Binary.

Variables prec emax : Z.
Hypothesis prec_pos : (0 < prec)%Z.

Lemma SFopp_involutive (x : spec_float) : SFopp (SFopp x) = x.
Proof. destruct x as [s | s | | s m e]; cbn; rewrite ?negb_involutive; reflexivity. Qed.

(** Rounding does not look at the sign. *)
Lemma binary_round_aux_opp (s : bool) (m e : Z) (l : location) :
  binary_round_aux prec emax (negb s) m e l =
  SFopp (binary_round_aux prec emax s m e l).
Proof.
  unfold binary_round_aux.
  destruct (shr_fexp prec emax m e l) as [mrs' e'].
  destruct (shr_fexp prec emax _ e' loc_Exact) as [mrs'' e''].
  destruct (shr_m mrs'') as [| q | q]; [reflexivity | | reflexivity].
  destruct (Z.leb e'' (Z.sub emax prec)); reflexivity.
Qed.

Lemma binary_normalize_opp (z e : Z) :
  z <> 0%Z ->
  binary_normalize prec emax (- z) e false =
  SFopp (binary_normalize prec emax z e false).
Proof.
  intros Hz. destruct z as [| p | p]; [congruence | |];
    unfold binary_normalize, binary_round; cbn [Z.opp];
    destruct (shl_align p e _) as [mz ez];
    [apply (binary_round_aux_opp false) | apply (binary_round_aux_opp true)].
Qed.

Lemma SFmul_comm (x y : spec_float) : SFmul prec emax x y = SFmul prec emax y x.
Proof.
  destruct x as [sx | sx | | sx mx ex], y as [sy | sy | | sy my ey]; cbn;
    rewrite ?(xorb_comm sx sy); try reflexivity.
  rewrite (Pos.mul_comm mx my), (Z.add_comm ex ey). reflexivity.
Qed.

Lemma SFmul_opp_l (x y : spec_float) :
  SFmul prec emax (SFopp x) y = SFopp (SFmul prec emax x y).
Proof.
  destruct x as [sx | sx | | sx mx ex], y as [sy | sy | | sy my ey]; cbn;
    rewrite <- ?negb_xorb_l; try reflexivity.
  apply binary_round_aux_opp.
Qed.

Lemma SFdiv_opp_l (x y : spec_float) :
  SFdiv prec emax (SFopp x) y = SFopp (SFdiv prec emax x y).
Proof.
  destruct x as [sx | sx | | sx mx ex], y as [sy | sy | | sy my ey]; cbn;
    rewrite <- ?negb_xorb_l; try reflexivity.
  destruct (SFdiv_core_binary prec emax (Zpos mx) ex (Zpos my) ey) as [[mz ez] lz].
  apply binary_round_aux_opp.
Qed.

Lemma SFadd_comm (x y : spec_float) : SFadd prec emax x y = SFadd prec emax y x.
Proof.
  destruct x as [[|] | [|] | | sx mx ex], y as [[|] | [|] | | sy my ey];
    try reflexivity.
  cbn. rewrite (Z.min_comm ex ey), Z.add_comm. reflexivity.
Qed.

(** [0 + a + b] is [0 + b + a], whatever the signs of the zeros. *)
Lemma SFadd_from_zero (a b : spec_float) :
  SFadd prec emax (SFadd prec emax (S754_zero false) a) b =
  SFadd prec emax (SFadd prec emax (S754_zero false) b) a.
Proof.
  destruct a as [[|] | [|] | | sa ma ea], b as [[|] | [|] | | sb mb eb];
    try reflexivity.
  apply SFadd_comm.
Qed.

(** [y - x] is the opposite of [x - y], unless both are [+0]. *)
Lemma SFsub_swap (x y : spec_float) :
  SFsub prec emax y x = SFopp (SFsub prec emax x y) \/
  (SFsub prec emax x y = S754_zero false /\ SFsub prec emax y x = S754_zero false).
Proof.
  destruct x as [[|] | [|] | | sx mx ex], y as [[|] | [|] | | sy my ey];
    try (left; reflexivity); try (right; split; reflexivity);
    try (left; cbn; rewrite negb_involutive; reflexivity).
  cbn. rewrite (Z.min_comm ey ex).
    set (a := cond_Zopp sx _). set (b := cond_Zopp sy _).
    destruct (Z.eq_dec (a - b) 0) as [E | N].
  - right. rewrite E. replace (b - a)%Z with 0%Z by lia. split; reflexivity.
  - left. replace (b - a)%Z with (- (a - b))%Z by lia.
    apply binary_normalize_opp, N.
Qed.

(** [x - x] is [+0] for a finite [x]. *)
Lemma SFsub_diag (x : spec_float) :
  (exists s, x = S754_zero s) \/ (exists s m e, x = S754_finite s m e) ->
  SFsub prec emax x x = S754_zero false.
Proof.
  intros [[s ->] | (s & m & e & ->)].
  - destruct s; reflexivity.
  - cbn. rewrite Z.sub_diag. reflexivity.
Qed.

(** **** A sum is not [-0]

    Rounding a mantissa that is not zero, at an exponent not below the
    least one, does not give a zero; so the sum of two doubles is [-0] only
    when both are. *)

#[local] Open Scope Z_scope.

Lemma digits2_pos_bound (m : positive) :
  2 ^ (Zpos (digits2_pos m) - 1) <= Zpos m.
Proof.
  induction m as [m IH | m IH |]; cbn [digits2_pos].
  - rewrite Pos2Z.inj_succ.
    replace (Z.succ (Zpos (digits2_pos m)) - 1) with (Z.succ (Zpos (digits2_pos m) - 1)) by lia.
    rewrite Z.pow_succ_r by lia. lia.
  - rewrite Pos2Z.inj_succ.
    replace (Z.succ (Zpos (digits2_pos m)) - 1) with (Z.succ (Zpos (digits2_pos m) - 1)) by lia.
    rewrite Z.pow_succ_r by lia. lia.
  - reflexivity.
Qed.

Lemma shr_1_half (r : shr_record) (k : Z) :
  0 <= k -> 2 * k <= shr_m r -> k <= shr_m (shr_1 r).
Proof.
  destruct r as [m b s]. cbn [shr_m]. intros Hk Hm.
  destruct m as [| [p | p |] | p]; cbn [shr_1 shr_m]; lia.
Qed.

Lemma iter_shr_1_bound (n : positive) :
  forall (r : shr_record) (k : Z),
    0 <= k -> 2 ^ Zpos n * k <= shr_m r -> k <= shr_m (iter_pos shr_1 n r).
Proof.
  induction n as [n IH | n IH |]; intros r k Hk Hm; cbn [iter_pos].
  - assert (Hpow : 2 ^ Zpos n~1 = 2 * (2 ^ Zpos n * 2 ^ Zpos n)).
    { rewrite (Pos2Z.inj_xI n), Z.pow_add_r, Z.pow_twice_r, Z.pow_1_r by lia. lia. }
    rewrite Hpow in Hm.
    assert (Hp : 0 < 2 ^ Zpos n) by (apply Z.pow_pos_nonneg; lia).
    apply IH; [exact Hk |].
    apply IH; [nia |].
    apply shr_1_half; nia.
  - assert (Hpow : 2 ^ Zpos n~0 = 2 ^ Zpos n * 2 ^ Zpos n).
    { rewrite (Pos2Z.inj_xO n), Z.pow_twice_r. reflexivity. }
    rewrite Hpow in Hm.
    assert (Hp : 0 < 2 ^ Zpos n) by (apply Z.pow_pos_nonneg; lia).
    apply IH; [exact Hk |].
    apply IH; nia.
  - apply shr_1_half; [exact Hk |]. rewrite Z.pow_1_r in Hm. exact Hm.
Qed.

Lemma shr_fexp_positive (p : positive) (e : Z) (l : location) (r' : shr_record) (e' : Z) :
  SpecFloat.emin prec emax <= e ->
  shr_fexp prec emax (Zpos p) e l = (r', e') ->
  1 <= shr_m r' /\ SpecFloat.emin prec emax <= e'.
Proof.
  intros He. unfold shr_fexp, shr. cbn [Zdigits2].
  assert (Hm : shr_m (shr_record_of_loc (Zpos p) l) = Zpos p).
  { destruct l as [| []]; reflexivity. }
  destruct (fexp prec emax (Zpos (digits2_pos p) + e) - e) as [| n | n] eqn:En;
    intros E; injection E as <- <-.
  - rewrite Hm. lia.
  - split; [| lia].
    apply iter_shr_1_bound; [lia |]. rewrite Hm, Z.mul_1_r.
    apply Z.le_trans with (2 ^ (Zpos (digits2_pos p) - 1)); [| apply digits2_pos_bound].
    apply Z.pow_le_mono_r; [lia |].
    unfold fexp in En. lia.
  - rewrite Hm. lia.
Qed.

Lemma round_nearest_even_le (m : Z) (l : location) : m <= round_nearest_even m l.
Proof.
  unfold round_nearest_even. destruct l as [| []]; try lia.
  destruct (Z.even m); lia.
Qed.

(** Rounding a mantissa that is not zero, at an exponent not below [emin],
    does not give a zero. *)
Lemma binary_round_aux_not_zero (s s' : bool) (p : positive) (e : Z) (l : location) :
  SpecFloat.emin prec emax <= e ->
  binary_round_aux prec emax s (Zpos p) e l <> S754_zero s'.
Proof.
  intros He. unfold binary_round_aux.
  destruct (shr_fexp prec emax (Zpos p) e l) as [mrs' e'] eqn:E1.
  destruct (shr_fexp_positive _ _ He E1) as [Hm' He'].
  pose proof (round_nearest_even_le (shr_m mrs') (loc_of_shr_record mrs')) as Hr.
  destruct (round_nearest_even (shr_m mrs') (loc_of_shr_record mrs')) as [| q | q] eqn:Eq;
    try lia.
  destruct (shr_fexp prec emax (Zpos q) e' loc_Exact) as [mrs'' e''] eqn:E2.
  destruct (shr_fexp_positive _ _ He' E2) as [Hm'' _].
  destruct (shr_m mrs'') as [| q' | q']; try lia.
  destruct (Z.leb e'' (Z.sub emax prec)); discriminate.
Qed.

Lemma binary_round_not_zero (s s' : bool) (p : positive) (e : Z) :
  SpecFloat.emin prec emax <= e ->
  binary_round prec emax s p e <> S754_zero s'.
Proof.
  intros He. unfold binary_round.
  destruct (shl_align p e (fexp prec emax (Zpos (digits2_pos p) + e))) as [mz ez] eqn:E.
  apply binary_round_aux_not_zero.
  unfold shl_align in E.
  destruct (fexp prec emax (Zpos (digits2_pos p) + e) - e) eqn:En;
    injection E as <- <-; unfold fexp in *; lia.
Qed.

Lemma valid_exponent (s : bool) (m : positive) (e : Z) :
  SpecFloat.valid_binary prec emax (S754_finite s m e) = true -> SpecFloat.emin prec emax <= e.
Proof.
  cbn [SpecFloat.valid_binary]. unfold bounded, canonical_mantissa.
  intros H. apply andb_prop in H. destruct H as [H _].
  apply Z.eqb_eq in H. unfold fexp in H. lia.
Qed.

(** A sum is [-0] only when both terms are. *)
Lemma SFadd_neg_zero (x y : spec_float) :
  SpecFloat.valid_binary prec emax x = true -> SpecFloat.valid_binary prec emax y = true ->
  SFadd prec emax x y = S754_zero true ->
  x = S754_zero true /\ y = S754_zero true.
Proof.
  intros Hx Hy.
  destruct x as [[|] | [|] | | sx mx ex], y as [[|] | [|] | | sy my ey];
    cbn [SFadd]; try discriminate; try (split; reflexivity).
  intros E. exfalso.
  pose proof (valid_exponent _ _ _ Hx) as Hex.
  pose proof (valid_exponent _ _ _ Hy) as Hey.
  revert E. unfold binary_normalize.
  destruct (_ + _)%Z as [| p | p]; [discriminate | |];
    apply binary_round_not_zero; lia.
Qed.

End Binary.

(** *** Doubles *)

#[local] Open Scope float_scope.

Lemma opp_involutive (x : float) : - - x = x.
Proof. apply Prim2SF_inj. rewrite !opp_spec. apply SFopp_involutive. Qed.

Lemma mul_comm (x y : float) : x * y = y * x.
Proof. apply Prim2SF_inj. rewrite !mul_spec. apply SFmul_comm. Qed.

Lemma mul_opp_l (x y : float) : - x * y = - (x * y).
Proof. apply Prim2SF_inj. rewrite opp_spec, !mul_spec, opp_spec. apply SFmul_opp_l. Qed.

Lemma mul_opp_r (x y : float) : x * - y = - (x * y).
Proof. rewrite (mul_comm x (- y)), mul_opp_l, (mul_comm y x). reflexivity. Qed.

Lemma mul_opp_opp (x y : float) : - x * - y = x * y.
Proof. rewrite mul_opp_l, mul_opp_r. apply opp_involutive. Qed.

Lemma div_opp_l (x y : float) : - x / y = - (x / y).
Proof. apply Prim2SF_inj. rewrite opp_spec, !div_spec, opp_spec. apply SFdiv_opp_l. Qed.

Lemma add_comm (x y : float) : x + y = y + x.
Proof. apply Prim2SF_inj. rewrite !add_spec. apply SFadd_comm. Qed.

Lemma add_from_zero (a b : float) : 0 + a + b = 0 + b + a.
Proof. apply Prim2SF_inj. rewrite !add_spec. apply SFadd_from_zero. Qed.

Lemma sub_swap (x y : float) : y - x = - (x - y) \/ (x - y = 0 /\ y - x = 0).
Proof.
  destruct (SFsub_swap prec emax (Prim2SF x) (Prim2SF y)) as [E | [E1 E2]].
  - left. apply Prim2SF_inj. rewrite opp_spec, !sub_spec. exact E.
  - right. split; apply Prim2SF_inj; rewrite sub_spec; assumption.
Qed.

Lemma abs_opp (x : float) : abs (- x) = abs x.
Proof.
  apply Prim2SF_inj. rewrite !abs_spec, opp_spec.
  destruct (Prim2SF x); reflexivity.
Qed.

(** A finite double is a zero or has a mantissa and an exponent. *)
Lemma is_finite_cases (x : float) :
  is_finite x = true ->
  (exists s, Prim2SF x = S754_zero s) \/ (exists s m e, Prim2SF x = S754_finite s m e).
Proof.
  unfold is_finite, is_nan, is_infinity. rewrite !eqb_spec, abs_spec.
  change (Prim2SF infinity) with (S754_infinity false).
  destruct (Prim2SF x) as [s | s | | s m e]; intros Hf.
  - left. eauto.
  - destruct s; discriminate.
  - discriminate.
  - right. eauto.
Qed.

Lemma sub_diag (x : float) : is_finite x = true -> x - x = 0.
Proof.
  intros Hf. apply Prim2SF_inj. rewrite sub_spec.
  apply SFsub_diag. apply (@is_finite_cases x Hf).
Qed.

(** [0 + c * 0 * 0] for a finite [c]: the products are zeros of some sign,
    the sum is [+0]. *)
Lemma add_zero_mul_zero (c : float) : is_finite c = true -> 0 + c * 0 * 0 = 0.
Proof.
  intros Hf. apply Prim2SF_inj. rewrite add_spec, !mul_spec.
  change (Prim2SF 0) with (S754_zero false).
  destruct (@is_finite_cases c Hf) as [[s ->] | (s & m & e & ->)];
    destruct s; reflexivity.
Qed.

(** **** Sums that start from [+0] *)

Lemma neg_zero_cases (x : float) : Prim2SF x = S754_zero true -> x = neg_zero.
Proof. intros E. apply Prim2SF_inj. rewrite E. reflexivity. Qed.

Lemma add_neg_zero (x y : float) : x + y = neg_zero -> x = neg_zero /\ y = neg_zero.
Proof.
  intros E. apply (f_equal Prim2SF) in E. rewrite add_spec in E.
  change (Prim2SF neg_zero) with (S754_zero true) in E.
  destruct (@SFadd_neg_zero prec emax eq_refl (Prim2SF x) (Prim2SF y)
              (Prim2SF_valid x) (Prim2SF_valid y) E) as [Ex Ey].
  split; apply neg_zero_cases; assumption.
Qed.

Lemma add_zero_r (d : float) : d <> neg_zero -> d + 0 = d.
Proof.
  intros Hd. apply Prim2SF_inj. rewrite add_spec.
  change (Prim2SF 0) with (S754_zero false).
  destruct (Prim2SF d) as [[|] | s | | s m e] eqn:E; try reflexivity.
  exfalso. apply Hd, neg_zero_cases, E.
Qed.

Lemma zero_not_neg_zero : 0 <> neg_zero.
Proof. intros E. apply (f_equal Prim2SF) in E. discriminate E. Qed.

(** The distance run up by the loop is never [-0]. *)
Lemma fold_add_not_neg_zero (segments : list float) :
  forall d, d <> neg_zero -> fold_left PrimFloat.add segments d <> neg_zero.
Proof.
  induction segments as [| s rest IH]; intros d Hd; cbn [fold_left].
  - exact Hd.
  - apply IH. intros E. apply add_neg_zero in E. apply Hd, E.
Qed.

(** **** [calculateDistance] on doubles *)

(** The operations of [DoubleArith], in place of those of the class. *)
Ltac to_doubles :=
  cbn [latitude longitude DoubleArith lit add sub mul div
       Math_PI Math_sin Math_cos Math_sqrt Math_atan2].

Section Platform.

Variable m : Libm.

#[local] Abbreviation distance l := (calculateDistance (arith := DoubleArith m) l).
#[local] Abbreviation km p q := (segment (arith := DoubleArith m) p q).

(** The loop adds the segments of the consecutive pairs, from [0]. *)
Lemma distance_fold (l : list (Coordinate float)) :
  distance l = Some (fold_left PrimFloat.add (map (segment_of m) (consecutive l)) 0).
Proof.
  rewrite calculateDistance_sum_segments. f_equal.
  unfold sum_segments. to_doubles. change (number 0) with 0.
  generalize 0. induction (consecutive l) as [| pq rest IH]; intros d.
  - reflexivity.
  - cbn [fold_left map]. apply IH.
Qed.

Hypothesis sin_odd : forall x, libm_sin m (- x) = - libm_sin m x.

Lemma segment_a_sym (p1 p2 : Coordinate float) :
  segment_a (arith := DoubleArith m) p1 p2 = segment_a (arith := DoubleArith m) p2 p1.
Proof.
  destruct p1 as [lat1 lon1], p2 as [lat2 lon2].
  unfold segment_a. to_doubles.
  rewrite (mul_comm (libm_cos m (lat2 * _)) (libm_cos m (lat1 * _))).
  assert (half : forall u v : float,
             v = - u \/ (u = 0 /\ v = 0) ->
             forall c : float,
               c * libm_sin m (v * (PI / number 180) / number 2)
                 * libm_sin m (v * (PI / number 180) / number 2) =
               c * libm_sin m (u * (PI / number 180) / number 2)
                 * libm_sin m (u * (PI / number 180) / number 2)).
  { intros u v [-> | [-> ->]] c; [| reflexivity].
    rewrite mul_opp_l, div_opp_l, sin_odd, !mul_opp_r, mul_opp_l.
    apply opp_involutive. }
  assert (square : forall u v : float,
             v = - u \/ (u = 0 /\ v = 0) ->
             libm_sin m (v * (PI / number 180) / number 2)
               * libm_sin m (v * (PI / number 180) / number 2) =
             libm_sin m (u * (PI / number 180) / number 2)
               * libm_sin m (u * (PI / number 180) / number 2)).
  { intros u v [-> | [-> ->]]; [| reflexivity].
    rewrite mul_opp_l, div_opp_l, sin_odd, mul_opp_opp. reflexivity. }
  rewrite (square (lat1 - lat2) (lat2 - lat1) (sub_swap lat1 lat2)).
  rewrite (half (lon1 - lon2) (lon2 - lon1) (sub_swap lon1 lon2)).
  reflexivity.
Qed.

Lemma segment_sym (p1 p2 : Coordinate float) : km p1 p2 = km p2 p1.
Proof.
  change (km p1 p2) with
    (number 6371 * (number 2 *
       libm_atan2 m (sqrt (segment_a (arith := DoubleArith m) p1 p2))
                    (sqrt (number 1 - segment_a (arith := DoubleArith m) p1 p2)))).
  rewrite (segment_a_sym p1 p2). reflexivity.
Qed.

Lemma distance_rev_fold (l : list (Coordinate float)) :
  distance (rev l) =
  Some (fold_left PrimFloat.add (rev (map (segment_of m) (consecutive l))) 0).
Proof.
  rewrite distance_fold, consecutive_rev, map_rev, map_map.
  do 3 f_equal. apply map_ext. intros [p q]. apply segment_sym.
Qed.

Lemma distance_rev_short (l : list (Coordinate float)) :
  (length l <= 3)%nat -> distance (rev l) = distance l.
Proof.
  intros Hl. rewrite distance_rev_fold, distance_fold. f_equal.
  destruct l as [| p [| q [| r [| x l]]]]; cbn [length] in Hl; try lia;
    try reflexivity.
  cbn. apply add_from_zero.
Qed.

Hypothesis sin_zero : libm_sin m 0 = 0.
Hypothesis atan2_zero : libm_atan2 m 0 1 = 0.

Lemma segment_same (p : Coordinate float) : finite_point m p = true -> km p p = 0.
Proof.
  destruct p as [lat lon]. unfold finite_point. cbn [latitude longitude].
  intros Hf. apply andb_prop in Hf. destruct Hf as [Hf Hcos].
  apply andb_prop in Hf. destruct Hf as [Hlat Hlon].
  unfold segment. to_doubles.
  rewrite (@sub_diag lat Hlat), (@sub_diag lon Hlon).
  change (0 * (PI / number 180) / number 2) with 0.
  rewrite sin_zero.
  change (0 * 0) with 0.
  rewrite (@add_zero_mul_zero _ Hcos).
  change (sqrt 0) with 0. change (sqrt (number 1 - 0)) with 1.
  rewrite atan2_zero. reflexivity.
Qed.

Lemma distance_duplicate (l1 l2 : list (Coordinate float)) (p : Coordinate float) :
  finite_point m p = true ->
  distance (l1 ++ p :: p :: l2) = distance (l1 ++ p :: l2).
Proof.
  intros Hp. rewrite !distance_fold. f_equal.
  rewrite (consecutive_app l1 p (p :: l2)), (consecutive_app l1 p l2).
  rewrite consecutive_cons2, !map_app, !fold_left_app.
  cbn [map fold_left]. change (segment_of m (p, p)) with (km p p).
  rewrite (@segment_same p Hp), add_zero_r; [reflexivity |].
  apply fold_add_not_neg_zero, zero_not_neg_zero.
Qed.

End Platform.

(** The sample platform for small angles is a platform. *)
Lemma small_angles_sin_odd (x : float) :
  libm_sin small_angles (- x) = - libm_sin small_angles x.
Proof.
  cbn. unfold below. rewrite abs_opp.
  destruct (abs x <? 0x1p-27); reflexivity.
Qed.

(** C1.  In every arithmetic [calculateDistance] returns, and returns the
    segments of the consecutive pairs added from left to right; for fewer
    than two points it returns 0.  On doubles the segment is not always a
    distance: between [{latitude: -82, longitude: -59.4}] and its antipode
    [{latitude: 82, longitude: 120.6}], on a platform with the stated
    values of [Math.sin] and [Math.cos], [a] is rounded to
    [1.0000000000000002]; [1 - a] is negative, its square root is [NaN],
    and [calculateDistance] returns [NaN], where the great-circle distance
    is half the circumference. *)
Theorem calculateDistance_nan_near_antipodes :
  (forall (A : Type) (arith : Arith A) (l : list (Coordinate A)),
      calculateDistance l = Some (sum_segments l)) /\
  (forall (A : Type) (arith : Arith A),
      calculateDistance (@nil (Coordinate A)) = Some (lit 0) /\
      forall p : Coordinate A, calculateDistance [p] = Some (lit 0)) /\
  (forall m : Libm,
      libm_sin m 0x1.6e6127ff9d971p+0 = 0x1.fb046a930947ap-1 ->
      libm_sin m 0x1.921fb54442d18p+0 = 1 ->
      libm_cos m (-0x1.6e6127ff9d971p+0) = 0x1.1d06c968d9e1ap-3 ->
      libm_cos m 0x1.6e6127ff9d971p+0 = 0x1.1d06c968d9e1ap-3 ->
      (forall y, libm_atan2 m y nan = nan) ->
      segment_a (arith := DoubleArith m) south north = 0x1.0000000000001p+0 /\
      (1 <? segment_a (arith := DoubleArith m) south north) = true /\
      sqrt (1 - segment_a (arith := DoubleArith m) south north) = nan /\
      calculateDistance (arith := DoubleArith m) [south; north] = Some nan).
Proof.
  split; [| split].
  - intros A arith l. apply calculateDistance_sum_segments.
  - intros A arith. apply calculateDistance_short.
  - intros m Hs1 Hs2 Hc1 Hc2 Hnan.
    assert (Ha : segment_a (arith := DoubleArith m) south north = 0x1.0000000000001p+0).
    { destruct m as [sin cos atan2]. cbn [libm_sin libm_cos] in Hs1, Hs2, Hc1, Hc2.
      vm_compute. rewrite Hs1, Hs2, Hc1, Hc2. reflexivity. }
    split; [exact Ha |]. rewrite !Ha.
    split; [reflexivity |]. split; [reflexivity |].
    rewrite calculateDistance_sum_segments. f_equal.
    change (sum_segments (arith := DoubleArith m) [south; north]) with
      (number 0 + number 6371 * (number 2 *
         libm_atan2 m (sqrt (segment_a (arith := DoubleArith m) south north))
                      (sqrt (number 1 - segment_a (arith := DoubleArith m) south north)))).
    rewrite Ha.
    change (sqrt (number 1 - 0x1.0000000000001p+0)) with nan.
    rewrite Hnan. reflexivity.
Qed.

(** C9, as the code has it.  On doubles, on a platform whose [Math.sin] is
    odd with [Math.sin(0) = 0] and whose [Math.atan2(0, 1)] is [0]: the
    segment from a finite point to itself is [+0], and the distance with
    such a point repeated is the distance without the repetition; a
    segment is the same in both directions, and the distance of the
    reversed sequence is the sum of the same segments taken from the last
    to the first, which is the distance of the sequence when it has at
    most three points. *)
Theorem calculateDistance_duplicate_and_reverse (m : Libm) :
  (forall x, libm_sin m (- x) = - libm_sin m x) ->
  libm_sin m 0 = 0 ->
  libm_atan2 m 0 1 = 0 ->
  (forall p : Coordinate float,
      finite_point m p = true -> segment (arith := DoubleArith m) p p = 0) /\
  (forall (l1 l2 : list (Coordinate float)) (p : Coordinate float),
      finite_point m p = true ->
      calculateDistance (arith := DoubleArith m) (l1 ++ p :: p :: l2) =
      calculateDistance (arith := DoubleArith m) (l1 ++ p :: l2)) /\
  (forall p1 p2 : Coordinate float,
      segment (arith := DoubleArith m) p1 p2 = segment (arith := DoubleArith m) p2 p1) /\
  (forall l : list (Coordinate float),
      calculateDistance (arith := DoubleArith m) l =
        Some (fold_left PrimFloat.add (map (segment_of m) (consecutive l)) 0) /\
      calculateDistance (arith := DoubleArith m) (rev l) =
        Some (fold_left PrimFloat.add (rev (map (segment_of m) (consecutive l))) 0)) /\
  (forall l : list (Coordinate float),
      (length l <= 3)%nat ->
      calculateDistance (arith := DoubleArith m) (rev l) =
      calculateDistance (arith := DoubleArith m) l).
Proof.
  intros Hodd Hzero Hatan.
  split; [| split; [| split; [| split]]].
  - intros p. apply segment_same; assumption.
  - intros l1 l2 p. apply distance_duplicate; assumption.
  - apply segment_sym, Hodd.
  - intros l. split; [apply distance_fold | apply distance_rev_fold, Hodd].
  - intros l. apply distance_rev_short, Hodd.
Qed.

Lemma calculateDistance_nan_near_antipodes_witness :
  calculateDistance (arith := DoubleArith near_antipodes) [south; north] = Some nan.
Proof.
  destruct calculateDistance_nan_near_antipodes as (_ & _ & H).
  apply (H near_antipodes); try reflexivity.
Defined.

Lemma calculateDistance_duplicate_and_reverse_witness :
  calculateDistance (arith := DoubleArith small_angles)
                    ([on_equator 0] ++ on_equator 0x1p-30 :: on_equator 0x1p-30 :: []) =
  calculateDistance (arith := DoubleArith small_angles)
                    ([on_equator 0] ++ on_equator 0x1p-30 :: []) /\
  calculateDistance (arith := DoubleArith small_angles)
                    (rev (firstn 3 four_points)) =
  calculateDistance (arith := DoubleArith small_angles) (firstn 3 four_points).
Proof.
  destruct (calculateDistance_duplicate_and_reverse
              small_angles small_angles_sin_odd eq_refl eq_refl)
    as (_ & Hsame & _ & _ & Hshort).
  split.
  - apply Hsame. reflexivity.
  - apply Hshort. simpl. lia.
Defined.

(** The four points on the equator: from west to east the distance is
    [1.0355834536678971e-07], from east to west [1.035583453667897e-07].
    The three segments are the same in both directions; they are added in
    the opposite order. *)
Lemma reversed_distance_differs :
  calculateDistance (arith := DoubleArith small_angles) four_points =
    Some 0x1.bcc79ad9adfecp-24 /\
  calculateDistance (arith := DoubleArith small_angles) (rev four_points) =
    Some 0x1.bcc79ad9adfebp-24 /\
  map (segment_of small_angles) (consecutive four_points) =
    [0x1.bcc79ad9adfecp-78; 0x1.bcc79ad9adfecp-78; 0x1.bcc79ad9adfebp-24] /\
  calculateDistance (arith := DoubleArith small_angles) (rev four_points) <>
  calculateDistance (arith := DoubleArith small_angles) four_points.
Proof.
  split; [vm_compute; reflexivity |].
  split; [vm_compute; reflexivity |].
  split; [vm_compute; reflexivity |].
  intros H.
  apply (f_equal (fun o => match o with
                           | Some x => (x =? 0x1.bcc79ad9adfecp-24)
                           | None => false
                           end)) in H.
  vm_compute in H. discriminate.
Qed.

End HaversineFacts.

(** ** The race detail screen *)

Module RaceDetailFacts.
Import RaceDetail.

Ltac run_code :=
  unfold step, on_channel, onPress, continuation,
    loadRaceData_fetched, loadRaceData_circuit, loadRaceData_failed,
    connectWebSocket, startRacing_permission, startRacing_watching,
    on_position, on_connect, on_race_started, on_participant_position,
    on_participant_finished, joinRace_ok, joinRace_failed, joinRace,
    startRaceAsCreator, startRaceAsCreator_ok, startRaceAsCreator_failed,
    finishRace, finishRace_confirmed, on_tick, startRacing, loadRaceData,
    drop_pending, close_dialog, await,
    setRace, setCircuit, setLeaderboard, setLoading, setIsRacing,
    setRaceStartTime, setCurrentSpeed, setCurrentTime,
    seq, emit, modify, skip in *;
  cbn [fst snd app
       with_race with_circuit with_leaderboard with_loading with_isRacing
       with_raceStartTime with_currentSpeed with_currentTime with_socketRef
       with_locationSubscription with_pending with_finishDialogs with_watchers
       race circuit leaderboard loading isRacing raceStartTime currentSpeed
       currentTime socketRef locationSubscription pending finishDialogs watchers] in *.

(** Case analysis on what the code branches on, one test at a time; a test
    whose result is known is not split. *)
Ltac branch1 :=
  match goal with
  | H : ?x = _ |- context [match ?x with _ => _ end] => rewrite H
  | |- context [match ?x with _ => _ end] => destruct x eqn:?
  end.

Ltac exec := run_code; repeat (branch1; run_code).

Ltac settle :=
  first [assumption | discriminate | congruence | intuition congruence].

(** Evaluation of the observations on a list of effects. *)
Ltac observe :=
  cbn [existsb filter length app orb
       is_open is_join_request is_start_request is_finish_race is_remove] in *.

Section Facts.

Variable id : string.
Variable user_id : option string.

#[local] Abbreviation step := (step id user_id).
#[local] Abbreviation run := (run id user_id).
#[local] Abbreviation offered := (offered user_id).
#[local] Abbreviation in_order_run := (in_order_run id user_id).

Lemma RaceStatus_eqb_eq (a b : RaceStatus) : RaceStatus_eqb a b = true <-> a = b.
Proof. destruct a, b; simpl; split; intros E; try reflexivity; discriminate. Qed.

(** What being on the screen means, button by button. *)
Lemma offered_inv (s : State) (b : Button) :
  offered s b = true ->
  exists r c ps,
    loading s = false /\ race s = Some r /\ circuit s = Some c /\
    participants r = Some ps /\
    existsb (Button_eqb b) (actionButtons user_id r ps (isRacing s)) = true.
Proof.
  unfold offered, render.
  destruct (loading s); [discriminate |].
  destruct (race s) as [r |]; [| discriminate].
  destruct (circuit s) as [c |]; [| discriminate].
  destruct (participants r) as [ps |] eqn:Hps; [| discriminate].
  intros Hb. exists r, c, ps. repeat split; assumption.
Qed.

Lemma offered_JoinRace (s : State) :
  offered s JoinRace = true ->
  exists r ps, race s = Some r /\ participants r = Some ps /\
               status r = waiting /\ hasJoined user_id ps = false.
Proof.
  intros Hb. destruct (offered_inv _ _ Hb) as (r & c & ps & _ & Hr & _ & Hps & Hex).
  exists r, ps. unfold actionButtons in Hex.
  destruct (RaceStatus_eqb (status r) waiting) eqn:Hw;
    destruct (hasJoined user_id ps) eqn:Hj;
    destruct (canStart user_id r ps);
    destruct (RaceStatus_eqb (status r) active);
    destruct (isRacing s); simpl in Hex; try discriminate;
    apply RaceStatus_eqb_eq in Hw; auto.
Qed.

Lemma offered_StartRace (s : State) :
  offered s StartRace = true ->
  exists r ps, race s = Some r /\ participants r = Some ps /\
               isCreator user_id r = true /\ status r = waiting /\
               (1 <= length ps)%nat.
Proof.
  intros Hb. destruct (offered_inv _ _ Hb) as (r & c & ps & _ & Hr & _ & Hps & Hex).
  exists r, ps. unfold actionButtons in Hex.
  destruct (canStart user_id r ps) eqn:Hc.
  - unfold canStart in Hc.
    apply andb_true_iff in Hc. destruct Hc as [Hc Hn].
    apply andb_true_iff in Hc. destruct Hc as [Hc Hw].
    apply RaceStatus_eqb_eq in Hw. apply Nat.ltb_lt in Hn. auto.
  - destruct (RaceStatus_eqb (status r) waiting && negb (hasJoined user_id ps));
      destruct (RaceStatus_eqb (status r) active && hasJoined user_id ps && negb (isRacing s));
      destruct (isRacing s); simpl in Hex; discriminate.
Qed.

Lemma offered_FinishRace (s : State) :
  offered s FinishRace = true -> isRacing s = true.
Proof.
  intros Hb. destruct (offered_inv _ _ Hb) as (r & c & ps & _ & Hr & _ & Hps & Hex).
  unfold actionButtons in Hex.
  destruct (isRacing s); [reflexivity |].
  destruct (RaceStatus_eqb (status r) waiting && negb (hasJoined user_id ps));
    destruct (canStart user_id r ps);
    destruct (RaceStatus_eqb (status r) active && hasJoined user_id ps && negb false);
    simpl in Hex; discriminate.
Qed.

(** A request to join or to start leaves the screen only from the press
    of its button. *)
Lemma join_request_source (s : State) (e : Event) :
  existsb is_join_request (snd (step s e)) = true ->
  e = Press JoinRace /\ offered s JoinRace = true.
Proof.
  destruct e as [i o | c | b | j | j now | now | sp la lo]; cbn [step].
  - destruct (nth_error (pending s) i) as [a |]; [| discriminate].
    destruct a, o as [[[r l] |] | [c |] | [| d] | [|] now | sub];
      exec; observe; discriminate.
  - destruct (socketRef s); [| discriminate].
    destruct c; run_code; observe; discriminate.
  - destruct (offered s b) eqn:Hb; [| discriminate].
    destruct b; run_code; observe; try discriminate. auto.
  - exec; discriminate.
  - destruct (nth_error (finishDialogs s) j); [| discriminate].
    exec; observe; discriminate.
  - exec; discriminate.
  - destruct (watchers s); [discriminate |].
    exec; observe; discriminate.
Qed.

Lemma start_request_source (s : State) (e : Event) :
  existsb is_start_request (snd (step s e)) = true ->
  e = Press StartRace /\ offered s StartRace = true.
Proof.
  destruct e as [i o | c | b | j | j now | now | sp la lo]; cbn [step].
  - destruct (nth_error (pending s) i) as [a |]; [| discriminate].
    destruct a, o as [[[r l] |] | [c |] | [| d] | [|] now | sub];
      exec; observe; discriminate.
  - destruct (socketRef s); [| discriminate].
    destruct c; run_code; observe; discriminate.
  - destruct (offered s b) eqn:Hb; [| discriminate].
    destruct b; run_code; observe; try discriminate. auto.
  - exec; discriminate.
  - destruct (nth_error (finishDialogs s) j); [| discriminate].
    exec; observe; discriminate.
  - exec; discriminate.
  - destruct (watchers s); [discriminate |].
    exec; observe; discriminate.
Qed.


(** **** The channel connection *)

Lemma step_connected (s : State) (e : Event) (k : Socket) :
  socketRef s = Some k ->
  socketRef (fst (step s e)) = Some k /\ filter is_open (snd (step s e)) = [].
Proof.
  intros Hs.
  destruct e as [i o | c | b | j | j now | now | sp la lo]; cbn [step].
  - destruct (nth_error (pending s) i) as [a |]; [| auto].
    destruct a, o as [[[r l] |] | [c |] | [| d] | [|] now | sub];
      exec; observe; auto.
  - rewrite Hs. destruct c; run_code; observe; auto.
  - destruct (offered s b); [| auto].
    destruct b; run_code; observe; auto.
  - exec; auto.
  - destruct (nth_error (finishDialogs s) j); [| auto].
    exec; observe; auto.
  - exec; auto.
  - destruct (watchers s); [auto |].
    exec; observe; auto.
Qed.

Lemma step_unconnected (s : State) (e : Event) :
  socketRef s = None ->
  (socketRef (fst (step s e)) = None /\ filter is_open (snd (step s e)) = []) \/
  (socketRef (fst (step s e)) = Some (mkSocket user_id) /\
   filter is_open (snd (step s e)) = [SocketOpen user_id]).
Proof.
  intros Hs.
  destruct e as [i o | c | b | j | j now | now | sp la lo]; cbn [step].
  - destruct (nth_error (pending s) i) as [a |]; [| auto].
    destruct a, o as [[[r l] |] | [c |] | [| d] | [|] now | sub];
      exec; observe; auto.
  - rewrite Hs. auto.
  - destruct (offered s b); [| auto].
    destruct b; run_code; observe; auto.
  - exec; auto.
  - destruct (nth_error (finishDialogs s) j); [| auto].
    exec; observe; auto.
  - exec; auto.
  - destruct (watchers s); [auto |].
    exec; observe; auto.
Qed.

Lemma run_connected (events : list Event) :
  forall (s : State) (k : Socket),
    socketRef s = Some k ->
    socketRef (fst (run s events)) = Some k /\
    filter is_open (snd (run s events)) = [].
Proof.
  induction events as [| e rest IH]; intros s k Hs; cbn [run fst snd].
  - auto.
  - destruct (step_connected s e Hs) as [Hk He].
    destruct (IH _ _ Hk) as [Hk' Hr].
    rewrite filter_app, He, Hr. auto.
Qed.

Lemma run_opens_once (events : list Event) :
  forall s : State,
    socketRef s = None ->
    (length (filter is_open (snd (run s events))) <= 1)%nat.
Proof.
  induction events as [| e rest IH]; intros s Hs; cbn [run fst snd].
  - simpl. lia.
  - rewrite filter_app, length_app.
    destruct (step_unconnected s e Hs) as [[Hn He] | [Hk He]]; rewrite He.
    + specialize (IH _ Hn). simpl. lia.
    + destruct (run_connected rest _ Hk) as [_ Hr]. rewrite Hr. simpl. lia.
Qed.

(** **** A session that reacts to nothing *)




(** **** What holds of every state of a session *)

Lemma quiet_offers_nothing (s : State) :
  quiet s -> forall b, offered s b = false.
Proof.
  intros (Hr & _ & [[Hc _] | [_ (r & Hrace & Hst)]]) b;
    unfold RaceDetail.offered, render.
  - rewrite Hc. destruct (loading s), (race s); reflexivity.
  - rewrite Hrace.
    destruct (loading s), (circuit s), (participants r); try reflexivity.
    unfold actionButtons, canStart. rewrite Hst, Hr.
    cbn [RaceStatus_eqb andb]. rewrite andb_false_r. reflexivity.
Qed.

Lemma step_keeps_start (s : State) (e : Event) :
  (isRacing s = true -> raceStartTime s <> None) ->
  isRacing (fst (step s e)) = true -> raceStartTime (fst (step s e)) <> None.
Proof.
  intros H1.
  destruct e as [i o | c | b | j | j now | now | sp la lo]; cbn [step].
  - destruct (nth_error (pending s) i) as [a |] eqn:?; [| cbn [fst snd]; settle].
    destruct a, o as [[[r l] |] | [c |] | [| d] | [|] now | sub];
      exec; settle.
  - destruct (socketRef s) eqn:?; [| cbn [fst snd]; settle].
    destruct c; exec; settle.
  - destruct (offered s b) eqn:?; [| cbn [fst snd]; settle].
    destruct b; exec; settle.
  - exec; settle.
  - destruct (nth_error (finishDialogs s) j) eqn:?; [| cbn [fst snd]; settle].
    exec; settle.
  - exec; settle.
  - destruct (watchers s) eqn:?; [cbn [fst snd]; settle |].
    exec; settle.
Qed.

Lemma in_dropped (T : Type) (x : T) (i : nat) :
  forall l : list T, In x (firstn i l ++ skipn (S i) l) -> In x l.
Proof.
  induction i as [| i IH]; intros [| a l]; cbn [firstn skipn app]; auto.
  - intros Hin. right. exact Hin.
  - intros [-> | Hin]; [left; reflexivity | right; apply IH, Hin].
Qed.

Lemma step_keeps_dialog (s : State) (e : Event) :
  (isRacing s = true -> raceStartTime s <> None) ->
  (forall t, In t (finishDialogs s) -> t <> None) ->
  forall t, In t (finishDialogs (fst (step s e))) -> t <> None.
Proof.
  intros H1 H2.
  destruct e as [i o | c | b | j | j now | now | sp la lo]; cbn [step].
  - destruct (nth_error (pending s) i) as [a |] eqn:?; [| cbn [fst snd]; settle].
    destruct a, o as [[[r l] |] | [c |] | [| d] | [|] now | sub];
      exec; settle.
  - destruct (socketRef s) eqn:?; [| cbn [fst snd]; settle].
    destruct c; exec; settle.
  - destruct (offered s b) eqn:Hb; [| cbn [fst snd]; exact H2].
    pose proof (offered_FinishRace s) as Hf.
    destruct b; exec; try exact H2.
    intros t Hin. apply in_app_or in Hin. destruct Hin as [Hin | [<- | []]].
    + apply H2, Hin.
    + apply H1, Hf, Hb.
  - destruct (nth_error (finishDialogs s) j) eqn:?; [| cbn [fst snd]; exact H2].
    exec. intros t Hin. apply H2, (in_dropped _ _ _ Hin).
  - destruct (nth_error (finishDialogs s) j) eqn:?; [| cbn [fst snd]; exact H2].
    exec; intros t Hin; apply H2, (in_dropped _ _ _ Hin).
  - exec; exact H2.
  - destruct (watchers s) eqn:?; [cbn [fst snd]; exact H2 |].
    exec; exact H2.
Qed.

(** The shapes of a session without a channel. *)
Ltac quiet_now :=
  unfold quiet; run_code;
  (split; [assumption |]); (split; [assumption |]);
  first
    [ left; split; [assumption |];
      first [ left; reflexivity
            | right; left; reflexivity
            | right; right; eexists; split; [reflexivity | first [reflexivity | eassumption]] ]
    | right; split; [reflexivity |]; eexists; split; [eassumption | assumption] ].

Lemma step_keeps_quiet (s : State) (e : Event) :
  socketRef s = None -> quiet s ->
  socketRef (fst (step s e)) = None -> quiet (fst (step s e)).
Proof.
  intros Hs Hq.
  pose proof (quiet_offers_nothing Hq) as Ho.
  destruct e as [i o | c | b | j | j now | now | sp la lo]; cbn [step].
  - destruct Hq as (Hr & Hd & [[Hc [Hp | [Hp | (r & Hp & Hrace)]]] | [Hp Hdone]]).
    + rewrite Hp. destruct i; cbn [nth_error]; intros _;
        unfold quiet; auto 6.
    + rewrite Hp. destruct i as [| i]; cbn [nth_error].
      * destruct o as [[[r l] |] | [c |] | [| d] | [|] now | sub]; exec;
          intros _; try (unfold quiet; auto 7; fail);
          unfold quiet; run_code; rewrite Hp; cbn [firstn skipn app];
          (split; [assumption |]); (split; [assumption |]);
          left; (split; [assumption |]).
        -- right. right. exists r. split; reflexivity.
        -- left. reflexivity.
      * destruct i; cbn [nth_error]; intros _; unfold quiet; auto 7.
    + rewrite Hp. destruct i as [| i]; cbn [nth_error].
      * assert (Hsame : quiet s).
        { unfold quiet. split; [assumption |]. split; [assumption |].
          left. split; [assumption |]. right. right. exists r. auto. }
        destruct o as [[[r' l] |] | [c |] | [| d] | [|] now | sub]; exec;
          try discriminate; intros _; try exact Hsame;
          unfold quiet; run_code; rewrite ?Hp; cbn [firstn skipn app];
          (split; [assumption |]); (split; [assumption |]).
        -- right. split; [reflexivity |]. exists r. auto.
        -- left. split; [assumption |]. left. reflexivity.
      * destruct i; cbn [nth_error]; intros _; unfold quiet;
          (split; [assumption |]); (split; [assumption |]);
          left; (split; [assumption |]); right; right; exists r; auto.
    + rewrite Hp. destruct i; cbn [nth_error]; intros _; unfold quiet; auto 6.
  - rewrite Hs. intros _. exact Hq.
  - rewrite Ho. intros _. exact Hq.
  - destruct Hq as (Hr & Hd & Hq). rewrite Hd.
    destruct j; cbn [nth_error]; intros _; unfold quiet; auto.
  - destruct Hq as (Hr & Hd & Hq). rewrite Hd.
    destruct j; cbn [nth_error]; intros _; unfold quiet; auto.
  - destruct Hq as (Hr & Hd & Hq). unfold on_tick. rewrite Hr.
    intros _. unfold quiet; auto.
  - destruct (watchers s); [intros _; exact Hq |].
    destruct Hq as (Hr & Hd & Hq).
    exec. intros _. unfold quiet; run_code; auto.
Qed.

Lemma step_consistent (s : State) (e : Event) :
  consistent s -> consistent (fst (step s e)).
Proof.
  intros (H1 & H2 & H3). split; [| split].
  - apply step_keeps_start; assumption.
  - apply step_keeps_dialog; assumption.
  - intros Hs'. destruct (socketRef s) as [k |] eqn:Hs.
    + destruct (step_connected s e Hs) as [Hk _]. congruence.
    + apply step_keeps_quiet; auto.
Qed.

Lemma run_consistent (events : list Event) :
  forall s, consistent s -> consistent (fst (run s events)).
Proof.
  induction events as [| e rest IH]; intros s Hc; cbn [run fst].
  - assumption.
  - apply IH, step_consistent, Hc.
Qed.

Lemma mount_consistent : consistent (fst (mount id)).
Proof.
  split; [| split]; cbn.
  - discriminate.
  - intros t [].
  - intros _. repeat split. left. split; auto.
Qed.

Lemma session_consistent (events : list Event) :
  consistent (fst (session id user_id events)).
Proof. apply run_consistent, mount_consistent. Qed.


(** **** The local status *)

Lemma status_le_refl (a : option RaceStatus) : status_le a a.
Proof. destruct a as [x |]; simpl; auto. Qed.

Lemma status_le_trans (a b c : option RaceStatus) :
  status_le a b -> status_le b c -> status_le a c.
Proof.
  destruct a as [x |], b as [y |], c as [z |]; simpl; try tauto. lia.
Qed.

(** The steps that write the status. *)
Lemma step_status (s : State) (e : Event) :
  localStatus (fst (step s e)) = localStatus s \/
  (e = Channel race_started /\ localStatus (fst (step s e)) = Some active) \/
  (exists i r l, e = Resolve i (Fetched (Some (r, l))) /\
                 localStatus (fst (step s e)) = Some (status r)).
Proof.
  destruct e as [i o | c | b | j | j now | now | sp la lo]; cbn [step].
  - destruct (nth_error (pending s) i) as [a |]; [| auto].
    destruct a, o as [[[r l] |] | [c |] | [| d] | [|] now | sub];
      exec; auto.
    right. right. exists i, r, l. auto.
  - destruct (socketRef s); [| auto].
    destruct c; exec; auto.
    right. left. split; [reflexivity |].
    unfold localStatus. cbn. destruct (race s); reflexivity.
  - destruct (offered s b); [| auto].
    destruct b; exec; auto.
  - exec; auto.
  - destruct (nth_error (finishDialogs s) j); [| auto].
    exec; auto.
  - exec; auto.
  - destruct (watchers s); [auto |].
    exec; auto.
Qed.

Lemma step_in_order (s : State) (e : Event) :
  in_order s e -> status_le (localStatus s) (localStatus (fst (step s e))).
Proof.
  intros Ho.
  destruct (step_status s e) as [E | [[-> E] | (i & r & l & -> & E)]]; rewrite E.
  - apply status_le_refl.
  - cbn [in_order] in Ho.
    destruct (localStatus s) as [[| |] |]; simpl; auto. congruence.
  - exact Ho.
Qed.

Lemma run_in_order (events : list Event) :
  forall s, in_order_run s events ->
            status_le (localStatus s) (localStatus (fst (run s events))).
Proof.
  induction events as [| e rest IH]; intros s Ho; cbn [run fst].
  - apply status_le_refl.
  - destruct Ho as [He Hrest].
    eapply status_le_trans; [apply step_in_order, He | apply IH, Hrest].
Qed.

Lemma run_app (before after : list Event) :
  forall s, fst (run s (before ++ after)) = fst (run (fst (run s before)) after).
Proof.
  induction before as [| e rest IH]; intros s; cbn [app run fst].
  - reflexivity.
  - apply IH.
Qed.

Lemma in_order_run_app (before after : list Event) :
  forall s, in_order_run s (before ++ after) ->
            in_order_run (fst (run s before)) after.
Proof.
  induction before as [| e rest IH]; intros s Ho; cbn [app run fst] in *.
  - exact Ho.
  - apply IH, Ho.
Qed.

(** **** [finishRace] *)

Lemma finalTime_value (t0 now : Z) :
  (finalTime (Some t0) now == (now - t0) # 1000)%Q.
Proof.
  unfold finalTime, or_zero, Qdiv, Qmult, Qinv, inject_Z, Qeq. simpl. lia.
Qed.

Lemma finalTime_nonneg (t0 now : Z) :
  (0 <= finalTime (Some t0) now)%Q <-> (t0 <= now)%Z.
Proof.
  unfold finalTime, or_zero, Qdiv, Qmult, Qinv, inject_Z, Qle. simpl. lia.
Qed.

Lemma finalTime_increasing (t : option Z) (now now' : Z) :
  (now < now')%Z -> (finalTime t now < finalTime t now')%Q.
Proof.
  intros H. unfold finalTime, Qdiv, Qmult, Qinv, inject_Z, Qlt.
  simpl. lia.
Qed.

(** The press of 'Finish' on a dialog, in a state with a channel. *)
Lemma confirm_finish (s : State) (i : nat) (t : option Z) (k : Socket) (now : Z) :
  nth_error (finishDialogs s) i = Some t -> socketRef s = Some k ->
  filter is_finish_race (snd (step s (DialogFinish i now))) =
    [SocketEmit (finish_race id (finalTime t now))] /\
  isRacing (fst (step s (DialogFinish i now))) = false /\
  (forall later, step (fst (step s (DialogFinish i now))) (Tick later) =
                 (fst (step s (DialogFinish i now)), [])) /\
  (forall sub, locationSubscription s = Some sub ->
               filter is_remove (snd (step s (DialogFinish i now))) =
                 [RemoveSubscription sub] /\
               watchers (fst (step s (DialogFinish i now))) =
                 filter (fun w => negb (Nat.eqb w sub)) (watchers s) /\
               ~ In sub (watchers (fst (step s (DialogFinish i now))))) /\
  (locationSubscription s = None ->
   filter is_remove (snd (step s (DialogFinish i now))) = [] /\
   watchers (fst (step s (DialogFinish i now))) = watchers s).
Proof.
  intros Hd Hs. cbn [step]. rewrite Hd.
  destruct (locationSubscription s) as [sub |] eqn:Hl; exec; observe;
    (split; [reflexivity |]); (split; [reflexivity |]);
    (split; [intros later; reflexivity |]); split.
  - intros sub' E. injection E as <-. split; [reflexivity |].
    split; [reflexivity |].
    intros Hin. apply filter_In in Hin. destruct Hin as [_ Hne].
    rewrite Nat.eqb_refl in Hne. discriminate.
  - discriminate.
  - discriminate.
  - intros _. split; reflexivity.
Qed.




(** **** The claims on actions *)

(** C2.  'Start Race' is on the screen only for the creator of the race,
    only while the status is waiting and only with at least one
    participant; without the button a press does nothing, and no other
    event sends the start request.  When the request succeeds the rest of
    [startRaceAsCreator] changes nothing: the race held, and its status,
    stay as they are.  It is the [race_started] event of the channel that
    sets the status to active. *)
Theorem startRaceAsCreator_gated_and_waits (s : State) :
  (offered s StartRace = true ->
   (exists r ps, race s = Some r /\ participants r = Some ps /\
                 isCreator user_id r = true /\ status r = waiting /\
                 (1 <= length ps)%nat) /\
   snd (step s (Press StartRace)) = [Http (POST_start id)] /\
   race (fst (step s (Press StartRace))) = race s) /\
  (offered s StartRace = false -> step s (Press StartRace) = (s, [])) /\
  (forall e, existsb is_start_request (snd (step s e)) = true ->
             e = Press StartRace /\ offered s StartRace = true) /\
  (forall i, nth_error (pending s) i = Some AwaitStart ->
             snd (step s (Resolve i (Posted Ok))) = [] /\
             race (fst (step s (Resolve i (Posted Ok)))) = race s) /\
  (forall k, socketRef s = Some k ->
             localStatus (fst (step s (Channel race_started))) = Some active).
Proof.
  split; [| split; [| split; [| split]]].
  - intros Hb. split; [apply offered_StartRace, Hb |].
    cbn [step]. rewrite Hb. split; reflexivity.
  - intros Hb. cbn [step]. rewrite Hb. reflexivity.
  - apply start_request_source.
  - intros i Hi. cbn [step]. rewrite Hi. split; reflexivity.
  - intros k Hk. cbn [step]. rewrite Hk.
    unfold localStatus. cbn. destruct (race s); reflexivity.
Qed.

(** C4.  While the status held is not waiting, 'Join Race' is not on the
    screen and a press sends nothing and changes nothing; whatever the
    event, a join request leaves the screen only from a press of the
    button in a state whose status is waiting. *)
Theorem joinRace_only_while_waiting (s : State) :
  (localStatus s <> Some waiting ->
   offered s JoinRace = false /\ step s (Press JoinRace) = (s, [])) /\
  (forall e, existsb is_join_request (snd (step s e)) = true ->
             e = Press JoinRace /\ localStatus s = Some waiting) /\
  (offered s JoinRace = true ->
   snd (step s (Press JoinRace)) = [Http (POST_join id)]).
Proof.
  assert (Hw : offered s JoinRace = true -> localStatus s = Some waiting).
  { intros Hb. destruct (offered_JoinRace _ Hb) as (r & ps & Hr & _ & Hst & _).
    unfold localStatus. rewrite Hr. simpl. congruence. }
  split; [| split].
  - intros Hn. destruct (offered s JoinRace) eqn:Hb.
    + exfalso. apply Hn, Hw. reflexivity.
    + split; [reflexivity |]. cbn [step]. rewrite Hb. reflexivity.
  - intros e He. destruct (join_request_source _ _ He) as [-> Hb]. auto.
  - intros Hb. cbn [step]. rewrite Hb. reflexivity.
Qed.

(** C10.  [connectWebSocket] does nothing when [socketRef] holds a socket;
    no event makes a connected screen open a channel, the reloads
    included; and over a whole session at most one channel is opened. *)
Theorem one_channel_connection :
  (forall (s : State) (k : Socket),
      connectWebSocket user_id (with_socketRef (Some k) s) =
      (with_socketRef (Some k) s, [])) /\
  (forall (s : State) (k : Socket) (e : Event),
      filter is_open (snd (step (with_socketRef (Some k) s) e)) = []) /\
  (forall events : list Event,
      (length (filter is_open (snd (session id user_id events))) <= 1)%nat).
Proof.
  split; [| split].
  - intros s k. reflexivity.
  - intros s k e.
    apply (step_connected (with_socketRef (Some k) s) e (k := k)). reflexivity.
  - intros events. unfold session. cbn [snd]. rewrite filter_app.
    change (filter is_open (snd (mount id))) with (@nil Effect).
    cbn [app]. apply run_opens_once. reflexivity.
Qed.


(** C6, as the screen has it.  In every session, an open 'Finish Race'
    dialog holds a start time [t0], and pressing its 'Finish' at [now]
    computes [(now - t0) / 1000], which grows with [now] and is not
    negative exactly when [now] is not before [t0]; it sends exactly one
    [finish_race] with that value and turns [isRacing] off, so that the
    timer callback no longer does anything.  [remove()] is called on the
    subscription stored in [locationSubscription]: that subscription, and
    no other, then serves no more positions; with none stored nothing is
    removed and the watchers stay as they are.  The start time of the
    dialog is the [raceStartTime] of the press, and [raceStartTime] is the
    time at which racing began. *)
Theorem finishRace_final_time :
  (forall s i now,
      nth_error (pending s) i = Some AwaitPermission ->
      raceStartTime (fst (step s (Resolve i (Permission true now)))) = Some now /\
      isRacing (fst (step s (Resolve i (Permission true now)))) = true) /\
  (forall s,
      offered s FinishRace = true ->
      finishDialogs (fst (step s (Press FinishRace))) =
      finishDialogs s ++ [raceStartTime s]) /\
  (forall (events : list Event) (i : nat) (t : option Z) (now : Z),
      let s := fst (session id user_id events) in
      nth_error (finishDialogs s) i = Some t ->
      exists t0 : Z,
        t = Some t0 /\
        (finalTime t now == (now - t0) # 1000)%Q /\
        ((0 <= finalTime t now)%Q <-> (t0 <= now)%Z) /\
        (forall later, (now < later)%Z -> (finalTime t now < finalTime t later)%Q) /\
        filter is_finish_race (snd (step s (DialogFinish i now))) =
          [SocketEmit (finish_race id (finalTime t now))] /\
        isRacing (fst (step s (DialogFinish i now))) = false /\
        (forall later, step (fst (step s (DialogFinish i now))) (Tick later) =
                       (fst (step s (DialogFinish i now)), [])) /\
        (forall sub, locationSubscription s = Some sub ->
                     filter is_remove (snd (step s (DialogFinish i now))) =
                       [RemoveSubscription sub] /\
                     watchers (fst (step s (DialogFinish i now))) =
                       filter (fun w => negb (Nat.eqb w sub)) (watchers s) /\
                     ~ In sub (watchers (fst (step s (DialogFinish i now))))) /\
        (locationSubscription s = None ->
         filter is_remove (snd (step s (DialogFinish i now))) = [] /\
         watchers (fst (step s (DialogFinish i now))) = watchers s)).
Proof.
  split; [| split].
  - intros s i now Hi. cbn [step]. rewrite Hi. split; reflexivity.
  - intros s Hb. cbn [step]. rewrite Hb. reflexivity.
  - intros events i t now s Hd.
    destruct (session_consistent events) as (_ & H2 & H3). fold s in H2, H3.
    assert (Hin : In t (finishDialogs s)) by (eapply nth_error_In; exact Hd).
    destruct t as [t0 |]; [| exfalso; exact (H2 None Hin eq_refl)].
    destruct (socketRef s) as [k |] eqn:Hs.
    2:{ destruct (H3 eq_refl) as (_ & Hnone & _). rewrite Hnone in Hin.
        destruct Hin. }
    exists t0.
    destruct (confirm_finish s i now Hd Hs) as (Hf & Hr & Ht & Hl & Hn).
    split; [reflexivity |].
    split; [apply finalTime_value |].
    split; [apply finalTime_nonneg |].
    split; [intros later; apply finalTime_increasing |].
    auto.
Qed.

(** C7, as the screen has it.  The status held is written by two steps
    only: [race_started] sets it to active whatever it was, and the
    answer to the race request of a load sets it to the fetched one.  So
    along a run whose events come in order (no [race_started] once the
    race is shown completed, no fetched status behind the one held) the
    status never goes back; the screen does not check that order. *)
Theorem status_advances_when_in_order :
  (forall (s : State) (e : Event),
      localStatus (fst (step s e)) = localStatus s \/
      (e = Channel race_started /\ localStatus (fst (step s e)) = Some active) \/
      (exists i r l, e = Resolve i (Fetched (Some (r, l))) /\
                     localStatus (fst (step s e)) = Some (status r))) /\
  (forall (s : State) (before after : list Event),
      in_order_run s (before ++ after) ->
      status_le (localStatus (fst (run s before)))
                (localStatus (fst (run s (before ++ after))))).
Proof.
  split.
  - apply step_status.
  - intros s before after Ho. rewrite run_app.
    apply run_in_order, in_order_run_app, Ho.
Qed.


End Facts.

(** **** Sessions of alice *)

Lemma startRaceAsCreator_gated_and_waits_witness :
  snd (step race7 alice (alice_after (loaded (a_race waiting ["bob"%string])))
            (Press StartRace)) = [Http (POST_start race7)] /\
  localStatus (alice_after (loaded (a_race waiting ["bob"%string]) ++
                            [Press StartRace; Resolve 0 (Posted Ok)])) = Some waiting.
Proof.
  split.
  - apply (startRaceAsCreator_gated_and_waits race7 alice
             (alice_after (loaded (a_race waiting ["bob"%string])))).
    reflexivity.
  - reflexivity.
Defined.

Lemma joinRace_only_while_waiting_witness :
  step race7 alice (alice_after (loaded (bobs_race active ["bob"%string])))
       (Press JoinRace) =
  (alice_after (loaded (bobs_race active ["bob"%string])), []).
Proof.
  apply (joinRace_only_while_waiting race7 alice
           (alice_after (loaded (bobs_race active ["bob"%string])))).
  cbn. discriminate.
Defined.


Lemma finishRace_final_time_witness :
  filter is_finish_race
         (snd (step race7 alice (alice_after about_to_finish) (DialogFinish 0 62500))) =
  [SocketEmit (finish_race race7 (finalTime (Some 1000%Z) 62500))].
Proof.
  destruct (finishRace_final_time race7 alice) as (_ & _ & H).
  destruct (H about_to_finish 0%nat (Some 1000%Z) 62500%Z eq_refl)
    as (t0 & _ & _ & _ & _ & Hf & _).
  exact Hf.
Defined.

(** The time sent is negative when the clock has gone back since racing
    began.  A finish confirmed before [watchPositionAsync] has answered
    removes nothing: the subscription that arrives afterwards is served,
    and a position is sent on the channel after [finish_race].  And two
    dialogs opened by two presses send two [finish_race] events, and call
    [remove()] twice. *)
Lemma finish_time_negative_and_watcher_kept :
  (filter is_finish_race (alice_did clock_went_back) =
     [SocketEmit (finish_race race7 (finalTime (Some 1000%Z) 400))] /\
   (finalTime (Some 1000%Z) 400 < 0)%Q) /\
  (filter is_remove (alice_did finish_before_watching) = [] /\
   isRacing (alice_after finish_before_watching) = false /\
   watchers (alice_after finish_before_watching) = [1%nat] /\
   alice_did finish_before_watching =
     [Http (GET_race race7); Http (GET_leaderboard race7);
      Http (GET_circuit (Some "circuit-1"%string)); SocketOpen alice;
      RequestPermission; WatchPosition; ConfirmFinish;
      SocketEmit (finish_race race7 (finalTime (Some 1000%Z) 62500));
      AlertRaceComplete (finalTime (Some 1000%Z) 62500);
      Http (GET_race race7); Http (GET_leaderboard race7);
      SocketEmit (position_update race7 (0 # 1) (0 # 1) (5 # 1))]) /\
  (filter is_finish_race (alice_did finish_twice) =
     [SocketEmit (finish_race race7 (finalTime (Some 1000%Z) 62500));
      SocketEmit (finish_race race7 (finalTime (Some 1000%Z) 70000))] /\
   filter is_remove (alice_did finish_twice) =
     [RemoveSubscription 1; RemoveSubscription 1]).
Proof. repeat split. Qed.

Lemma status_advances_when_in_order_witness :
  status_le (localStatus (alice_after (loaded (a_race waiting ["bob"%string]))))
            (localStatus (alice_after (loaded (a_race waiting ["bob"%string]) ++
                                       [Channel race_started]))).
Proof.
  destruct (status_advances_when_in_order race7 alice) as [_ H].
  apply (H (fst (mount race7)) (loaded (a_race waiting ["bob"%string]))
           [Channel race_started]).
  cbn. repeat split; try exact I; discriminate.
Defined.

(** The status held goes back: a [race_started] after the race was seen
    completed, and the answer of a reload that arrives after the
    [race_started] it was sent before. *)
Lemma status_goes_back :
  (localStatus (alice_after seen_completed) = Some completed /\
   localStatus (alice_after (seen_completed ++ [Channel race_started])) = Some active) /\
  (localStatus (alice_after (removelast late_answer)) = Some active /\
   localStatus (alice_after late_answer) = Some waiting).
Proof. repeat split. Qed.


(** C3.  alice has not joined the race and 'Begin Racing' is not offered to
    her, but [race_started] starts [startRacing] all the same: with the
    permission granted she is racing, the timer has its start time, the
    position is watched and sent on the channel.  The handler asks for the
    permission in every state. *)
Theorem race_started_starts_racing_unjoined :
  hasJoined alice ["bob"%string] = false /\
  offered alice (alice_after (loaded (a_race waiting ["bob"%string]) ++
                              [Channel race_started])) BeginRacing = false /\
  localStatus (alice_after started_unjoined) = Some active /\
  isRacing (alice_after started_unjoined) = true /\
  raceStartTime (alice_after started_unjoined) = Some 5000%Z /\
  watchers (alice_after started_unjoined) = [1%nat] /\
  alice_did started_unjoined =
    [Http (GET_race race7); Http (GET_leaderboard race7);
     Http (GET_circuit (Some "circuit-1"%string)); SocketOpen alice;
     Alert "Race Started!" "The race has begun. Good luck!";
     RequestPermission; WatchPosition;
     SocketEmit (position_update race7 (0 # 1) (0 # 1) (5 # 1))] /\
  (forall (id : string) (user : option string) (s : State) (k : Socket),
      snd (step id user (with_socketRef (Some k) s) (Channel race_started)) =
      [Alert "Race Started!" "The race has begun. Good luck!"; RequestPermission]).
Proof. repeat split. Qed.

End RaceDetailFacts.

(** ** The circuit detail screen *)

Module CircuitDetailFacts.
Import CircuitDetail.

(** While a [createRace] is waiting for its response the button is
    disabled: a second press sends nothing. *)
Lemma createRace_second_press (id : string) (s : State) :
  snd (step id (fst (step id s PressCreateRace)) PressCreateRace) = [].
Proof.
  cbn [step]. destruct (enabled s) eqn:He; cbn [fst].
  - unfold enabled, createRace. cbn. rewrite andb_false_r. reflexivity.
  - rewrite He. reflexivity.
Qed.

End CircuitDetailFacts.

(** C8.  Two presses of 'Join Race' before the first response send two
    join requests: [joinRace] sets no flag and the button stays on the
    screen.  [createRace] of the circuit screen has the flag ([creating])
    and sends nothing on the second press. *)
Theorem double_tap_sends_two_join_requests :
  filter RaceDetail.is_join_request (RaceDetail.alice_did RaceDetail.double_tap) =
    [RaceDetail.Http (RaceDetail.POST_join RaceDetail.race7);
     RaceDetail.Http (RaceDetail.POST_join RaceDetail.race7)] /\
  RaceDetail.pending (RaceDetail.alice_after RaceDetail.double_tap) =
    [RaceDetail.AwaitJoin; RaceDetail.AwaitJoin] /\
  (forall (id : string) (s : CircuitDetail.State),
      snd (CircuitDetail.step id
             (fst (CircuitDetail.step id s CircuitDetail.PressCreateRace))
             CircuitDetail.PressCreateRace) = []).
Proof.
  split; [reflexivity |]. split; [reflexivity |].
  apply CircuitDetailFacts.createRace_second_press.
Qed.

(** ** More on the circuit distance *)

Module HaversineMore.
Import Haversine HaversineFacts.

Section AnyArithmetic.

Context {A : Type} {arith : Arith A}.

Lemma consecutive_snoc (l : list (Coordinate A)) (q p : Coordinate A) :
  consecutive (l ++ [q; p]) = consecutive (l ++ [q]) ++ [(q, p)].
Proof.
  induction l as [| a [| b rest] IH].
  - reflexivity.
  - reflexivity.
  - change ((a :: b :: rest) ++ [q; p]) with (a :: b :: (rest ++ [q; p])).
    change ((a :: b :: rest) ++ [q]) with (a :: b :: (rest ++ [q])).
    rewrite !consecutive_cons2.
    change (b :: rest ++ [q; p]) with ((b :: rest) ++ [q; p]).
    change (b :: rest ++ [q]) with ((b :: rest) ++ [q]).
    rewrite IH. reflexivity.
Qed.

(** X1.  A way point added at the end of a circuit adds the segment from
    the point that was last, whatever the arithmetic: the new distance is
    the old one plus that segment, in this order. *)
Theorem calculateDistance_add_waypoint (l : list (Coordinate A)) (q p : Coordinate A) :
  calculateDistance (l ++ [q; p]) =
  option_map (fun d => add d (segment q p)) (calculateDistance (l ++ [q])).
Proof.
  rewrite !calculateDistance_sum_segments. cbn [option_map]. f_equal.
  unfold sum_segments. rewrite consecutive_snoc, fold_left_app. reflexivity.
Qed.

End AnyArithmetic.

End HaversineMore.


(** ** The circuit creation screen *)

Module CreateCircuitFacts.
Import Haversine HaversineFacts CreateCircuit.

Lemma trimStart_nil (s : JSString) :
  trimStart s = [] <-> forallb is_white_space s = true.
Proof.
  induction s as [| c rest IH]; cbn [trimStart forallb].
  - tauto.
  - destruct (is_white_space c); cbn [andb].
    + exact IH.
    + split; discriminate.
Qed.

Lemma trimStart_keeps_black (s : JSString) (c : N) :
  is_white_space c = false -> trimStart (s ++ [c]) <> [].
Proof.
  intros Hc Hnil. apply trimStart_nil in Hnil.
  rewrite forallb_app in Hnil. cbn [forallb] in Hnil. rewrite Hc in Hnil.
  rewrite andb_false_r in Hnil. discriminate.
Qed.

(** A string trims to nothing exactly when it is made of white space. *)
Lemma trim_empty (s : JSString) :
  is_empty (trim s) = forallb is_white_space s.
Proof.
  unfold trim.
  destruct (forallb is_white_space s) eqn:Hall.
  - apply trimStart_nil in Hall. rewrite Hall. reflexivity.
  - destruct (trimStart s) as [| c rest] eqn:Hs.
    + apply trimStart_nil in Hs. congruence.
    + assert (Hc : is_white_space c = false).
      { clear Hall. induction s as [| c' s IH]; cbn [trimStart] in Hs.
        - discriminate.
        - destruct (is_white_space c') eqn:Hc'.
          + apply IH, Hs.
          + injection Hs as -> _. exact Hc'. }
      cbn [rev].
      pose proof (trimStart_keeps_black (rev rest) c Hc) as Hne.
      destruct (trimStart (rev rest ++ [c])) as [| x xs] eqn:Ht.
      * congruence.
      * cbn [rev]. destruct (rev xs); reflexivity.
Qed.

Section Facts.

Context {A : Type} {arith : Arith A}.

(** X2.  A circuit is sent only by a press of the save button while no
    save is running, with a name that has a character other than white
    space and with at least two way points; what is sent is the name as
    typed, the points drawn, their distance as [calculateDistance] gives
    it, and the switch. *)
Theorem saveCircuit_sends_the_circuit_drawn (s : State A) (e : Event A) (b : Body A) :
  In (POST_circuits b) (snd (step s e)) ->
  e = PressSave /\ saving s = false /\
  forallb is_white_space (circuitName s) = false /\
  (2 <= length (coordinates s))%nat /\
  b = mkBody (circuitName s) (coordinates s) (sum_segments (coordinates s)) (isPublic s).
Proof.
  destruct e; cbn [step snd];
    try solve [intros []];
    try solve [destruct (length (coordinates s) =? 0); cbn; intuition discriminate];
    try solve [destruct (clearDialogs s); cbn; intuition].
  - destruct (saving s) eqn:Hsav; [intros [] |].
    unfold saveCircuit. rewrite trim_empty.
    destruct (forallb is_white_space (circuitName s)) eqn:Hname.
    { cbn. intuition discriminate. }
    destruct (length (coordinates s) <? 2) eqn:Hlen.
    { cbn. intuition discriminate. }
    apply Nat.ltb_ge in Hlen.
    rewrite calculateDistance_sum_segments. cbn.
    intros [Hb | []]. injection Hb as <-. auto.
  - destruct (inflight s); cbn; [intros [] |].
    destruct detail; cbn; intuition discriminate.
Qed.

Lemma create_run_app (before after : list (Event A)) :
  forall s, fst (run s (before ++ after)) = fst (run (fst (run s before)) after).
Proof.
  induction before as [| e rest IH]; intros s; cbn [app run fst].
  - reflexivity.
  - apply IH.
Qed.

Lemma run_map_presses (points : list (Coordinate A)) :
  forall s, fst (run s (map (@MapPress A) points)) =
            with_coordinates (coordinates s ++ points) s \/
            points = [].
Proof.
  induction points as [| c rest IH]; intros s; [right; reflexivity |].
  left. cbn [map run fst step].
  destruct (IH (handleMapPress c s)) as [E | ->].
  - rewrite E. unfold handleMapPress, with_coordinates. cbn.
    rewrite <- app_assoc. reflexivity.
  - cbn. reflexivity.
Qed.

Lemma run_undos (n : nat) :
  forall (s : State A) (kept points : list (Coordinate A)),
    coordinates s = kept ++ points -> length points = n ->
    coordinates (fst (run s (repeat PressUndo n))) = kept.
Proof.
  induction n as [| n IH]; intros s kept points Hc Hn.
  - destruct points; [| discriminate]. rewrite app_nil_r in Hc. exact Hc.
  - destruct (rev points) as [| c front] eqn:Hrev.
    { apply (f_equal (@length _)) in Hrev. rewrite length_rev in Hrev.
      simpl in Hrev. lia. }
    apply (f_equal (@rev _)) in Hrev. rewrite rev_involutive in Hrev.
    cbn [rev] in Hrev. subst points.
    cbn [repeat run fst step].
    assert (Hlen : length (coordinates s) <> 0%nat).
    { rewrite Hc, !length_app. simpl. lia. }
    apply Nat.eqb_neq in Hlen. rewrite Hlen. cbn [fst].
    apply (IH _ kept (rev front)).
    + unfold undoLastPoint.
      replace (0 <? length (coordinates s)) with true
        by (symmetry; apply Nat.ltb_lt; apply Nat.eqb_neq in Hlen; lia).
      cbn. rewrite Hc, app_assoc. apply removelast_last.
    + rewrite length_app in Hn. simpl in Hn. lia.
Qed.

(** X3.  Way points put on the map and then undone one by one leave the
    circuit as it was: as many presses of 'Undo' as presses on the map
    give back the points there were before. *)
Theorem undo_takes_back_map_presses (s : State A) (points : list (Coordinate A)) :
  coordinates (fst (run s (map (@MapPress A) points ++
                           repeat PressUndo (length points)))) =
  coordinates s.
Proof.
  rewrite create_run_app.
  apply (run_undos (n := length points)) with (points := points); [| reflexivity].
  destruct (run_map_presses points s) as [E | ->].
  - rewrite E. reflexivity.
  - rewrite app_nil_r. reflexivity.
Qed.

Lemma saveCircuit_inflight (s : State A) (e : Event A) :
  inflight s = (if saving s then 1 else 0)%nat ->
  inflight (fst (step s e)) = (if saving (fst (step s e)) then 1 else 0)%nat.
Proof.
  intros Hi.
  destruct e; cbn [step];
    try solve [exact Hi];
    try solve [destruct (length (coordinates s) =? 0); try exact Hi;
               unfold undoLastPoint; destruct (0 <? length (coordinates s)); exact Hi];
    try solve [destruct (clearDialogs s); exact Hi].
  - destruct (saving s) eqn:Hsav; [cbn; rewrite Hsav; exact Hi |].
    unfold saveCircuit.
    destruct (is_empty (trim (circuitName s))); [cbn; rewrite Hsav; exact Hi |].
    destruct (length (coordinates s) <? 2); [cbn; rewrite Hsav; exact Hi |].
    destruct (calculateDistance (coordinates s)); cbn; lia.
  - destruct (inflight s) as [| n] eqn:Hn; [cbn; rewrite Hn; exact Hi |].
    cbn. rewrite Hn. destruct (saving s); [| discriminate].
    injection Hi as ->. reflexivity.
Qed.

(** X4.  At any time of a session of the screen at most one save request
    waits for its response: the number in flight is one while [saving] is
    set and zero otherwise. *)
Theorem one_save_in_flight (events : list (Event A)) :
  inflight (fst (run initial events)) =
  (if saving (fst (run initial events)) then 1 else 0)%nat.
Proof.
  assert (Hgen : forall s, inflight s = (if saving s then 1 else 0)%nat ->
                           inflight (fst (run s events)) =
                           (if saving (fst (run s events)) then 1 else 0)%nat).
  { induction events as [| e rest IH]; intros s Hs; cbn [run fst].
    - exact Hs.
    - apply IH, saveCircuit_inflight, Hs. }
  apply Hgen. reflexivity.
Qed.


End Facts.

Lemma saveCircuit_sends_the_circuit_drawn_witness :
  (2 <= length (coordinates loop_drawn))%nat /\
  forallb is_white_space (circuitName loop_drawn) = false.
Proof.
  destruct (@saveCircuit_sends_the_circuit_drawn Term TermArith loop_drawn PressSave
              (mkBody (circuitName loop_drawn) (coordinates loop_drawn)
                      (sum_segments (coordinates loop_drawn)) (isPublic loop_drawn)))
    as (_ & _ & Hname & Hlen & _).
  - cbn. left. reflexivity.
  - split; assumption.
Defined.

End CreateCircuitFacts.


(** ** More on the race detail screen *)

Module RaceDetailMoreFacts.
Import RaceDetail RaceDetailFacts RaceDetailMore.

Section Facts.

Variable id : string.
Variable user_id : option string.

#[local] Abbreviation step := (step id user_id).
#[local] Abbreviation run := (run id user_id).
#[local] Abbreviation offered := (offered user_id).

Lemma calm_pending (s : State) (i : nat) (more : list Await) :
  ~ In AwaitWatch (pending s) -> ~ In AwaitWatch more ->
  ~ In AwaitWatch ((firstn i (pending s) ++ skipn (S i) (pending s)) ++ more).
Proof.
  intros Hp Hm Hin. apply in_app_or in Hin. destruct Hin as [Hin | Hin].
  - apply Hp, (in_dropped _ _ _ Hin).
  - exact (Hm Hin).
Qed.

Lemma step_calm (s : State) (e : Event) :
  calm s -> grants e = false ->
  calm (fst (step s e)) /\ filter is_racing_effect (snd (step s e)) = [].
Proof.
  intros (Hr & Hd & Hw & Hp) Hg.
  destruct e as [i o | c | b | j | j now | now | sp la lo]; cbn [RaceDetail.step].
  - destruct (nth_error (pending s) i) as [a |] eqn:Hi.
    2:{ split; [repeat split; assumption | reflexivity]. }
    assert (Ha : a <> AwaitWatch).
    { intros ->. apply Hp, (nth_error_In _ _ Hi). }
    destruct a, o as [[[r l] |] | [c |] | [| d] | [|] now | sub];
      try discriminate Hg; try congruence;
      exec;
      (split; [| reflexivity]);
      unfold calm; run_code;
      (repeat split; try assumption);
      try (rewrite <- (app_nil_r (firstn i (pending s) ++ skipn (S i) (pending s)));
           apply calm_pending; [assumption | intros []]);
      try (apply calm_pending; [assumption | cbn; intuition discriminate]).
  - destruct (socketRef s) eqn:Hs.
    2:{ split; [repeat split; assumption | reflexivity]. }
    destruct c; exec; (split; [| reflexivity]); unfold calm; run_code;
      (repeat split; try assumption);
      intros Hin; apply in_app_or in Hin; destruct Hin as [Hin | Hin];
      try (exact (Hp Hin)); cbn in Hin; intuition discriminate.
  - destruct (offered s b) eqn:Hb.
    2:{ split; [repeat split; assumption | reflexivity]. }
    destruct b; try (apply offered_FinishRace in Hb; congruence);
      exec; (split; [| reflexivity]); unfold calm; run_code;
      (repeat split; try assumption);
      intros Hin; apply in_app_or in Hin; destruct Hin as [Hin | Hin];
      try (exact (Hp Hin)); cbn in Hin; intuition discriminate.
  - rewrite Hd. destruct j; (split; [repeat split; assumption | reflexivity]).
  - rewrite Hd. destruct j; (split; [repeat split; assumption | reflexivity]).
  - unfold on_tick. rewrite Hr. split; [repeat split; assumption | reflexivity].
  - rewrite Hw. split; [repeat split; assumption | reflexivity].
Qed.

Lemma run_calm (events : list Event) :
  forall s, calm s -> existsb grants events = false ->
            calm (fst (run s events)) /\
            filter is_racing_effect (snd (run s events)) = [].
Proof.
  induction events as [| e rest IH]; intros s Hc Hg; cbn [RaceDetail.run fst snd].
  - split; [exact Hc | reflexivity].
  - cbn [existsb] in Hg. apply orb_false_iff in Hg. destruct Hg as [He Hrest].
    destruct (@step_calm s e Hc He) as [Hc' Hf].
    destruct (IH _ Hc' Hrest) as [Hc'' Hf'].
    split; [exact Hc'' |]. rewrite filter_app, Hf, Hf'. reflexivity.
Qed.

(** X6.  In a session in which the location permission is never granted
    the screen never races: [isRacing] stays off, no position is watched,
    and neither a position nor a final time is sent on the channel,
    whatever is pressed and whatever the channel delivers. *)
Theorem no_racing_without_permission (events : list Event) :
  existsb grants events = false ->
  isRacing (fst (session id user_id events)) = false /\
  watchers (fst (session id user_id events)) = [] /\
  filter is_racing_effect (snd (session id user_id events)) = [].
Proof.
  intros Hg. unfold session. cbn [fst snd].
  assert (Hm : calm (fst (mount id))).
  { repeat split. cbn. intuition discriminate. }
  destruct (@run_calm events _ Hm Hg) as [(Hr & _ & Hw & _) Hf].
  repeat split; assumption.
Qed.


Lemma offered_BeginRacing (s : State) :
  offered s BeginRacing = true ->
  exists r ps, race s = Some r /\ participants r = Some ps /\
               status r = active /\ hasJoined user_id ps = true /\
               isRacing s = false.
Proof.
  intros Hb. destruct (offered_inv _ _ _ Hb) as (r & c & ps & _ & Hr & _ & Hps & Hex).
  exists r, ps. unfold actionButtons in Hex.
  destruct (RaceStatus_eqb (status r) active) eqn:Ha;
    destruct (hasJoined user_id ps) eqn:Hj;
    destruct (isRacing s) eqn:Hi;
    destruct (RaceStatus_eqb (status r) waiting);
    destruct (canStart user_id r ps);
    simpl in Hex; try discriminate;
    apply RaceStatus_eqb_eq in Ha; auto.
Qed.

(** X7.  'Begin Racing' is on the screen only while the status held is
    active, the user is among the participants and the screen is not
    racing; and the location permission is asked for by two events only,
    a press of that button and [race_started] on the channel. *)
Theorem startRacing_sources (s : State) (e : Event) :
  (offered s BeginRacing = true ->
   exists r ps, race s = Some r /\ participants r = Some ps /\
                status r = active /\ hasJoined user_id ps = true /\
                isRacing s = false) /\
  (In RequestPermission (snd (step s e)) ->
   (e = Press BeginRacing /\ offered s BeginRacing = true) \/
   (e = Channel race_started /\ socketRef s <> None)).
Proof.
  split; [apply offered_BeginRacing |].
  destruct e as [i o | c | b | j | j now | now | sp la lo]; cbn [RaceDetail.step].
  - destruct (nth_error (pending s) i) as [a |]; [| intros []].
    destruct a, o as [[[r l] |] | [c |] | [| d] | [|] now | sub];
      exec; cbn [In]; intuition discriminate.
  - destruct (socketRef s) eqn:Hs; [| intros []].
    destruct c; exec; cbn [In]; intuition (try discriminate; try congruence).
  - destruct (offered s b) eqn:Hb; [| intros []].
    destruct b; exec; cbn [In]; intuition (try discriminate; try congruence).
  - destruct (nth_error (finishDialogs s) j); [| intros []].
    exec; intros [].
  - destruct (nth_error (finishDialogs s) j); [| intros []].
    exec; cbn [In]; intuition discriminate.
  - exec; intros [].
  - destruct (watchers s); [intros [] |].
    exec; cbn [In]; intuition discriminate.
Qed.

(** X8.  While the screen is racing a channel is connected and a start
    time is recorded, in every session: racing begins only on a screen
    that has opened its channel, and nothing closes the channel or erases
    the start time. *)
Theorem racing_has_channel_and_start (events : list Event) :
  isRacing (fst (session id user_id events)) = true ->
  socketRef (fst (session id user_id events)) <> None /\
  raceStartTime (fst (session id user_id events)) <> None.
Proof.
  intros Hr. destruct (session_consistent id user_id events) as (H1 & _ & H3).
  split; [| apply H1, Hr].
  intros Hs. destruct (H3 Hs) as (Hq & _). congruence.
Qed.



Lemma timed_later (t t' : Z) (s : State) :
  (t <= t')%Z -> timed t s -> timed t' s.
Proof.
  intros Ht (H1 & H2 & H3 & H4). repeat split; auto.
  - intros t0 E. specialize (H2 _ E). lia.
  - intros c E. destruct (H3 _ E) as (t0 & -> & Hle). exists t0. split; [reflexivity | lia].
Qed.

Ltac timed_goal :=
  unfold timed in *; run_code;
  repeat match goal with
         | |- _ /\ _ => split
         | |- forall _, _ => intro
         | H : Some _ = Some _ |- _ => injection H as ?; subst
         | H : In _ (firstn _ _ ++ skipn _ _) |- _ => apply in_dropped in H
         end;
  try discriminate; try congruence; try lia; eauto.

Lemma step_timed (t : Z) (s : State) (e : Event) :
  timed t s ->
  (forall now, stamp e = Some now -> (t <= now)%Z) ->
  timed (match stamp e with Some now => now | None => t end) (fst (step s e)) /\
  Forall finish_not_negative (snd (step s e)).
Proof.
  intros Ht Hclock.
  destruct e as [i o | c | b | j | j now | now | sp la lo]; cbn [RaceDetail.step].
  - destruct (nth_error (pending s) i) as [a |] eqn:Hi.
    2:{ split; [| constructor]. cbn [fst].
        destruct (stamp (Resolve i o)) as [now |] eqn:E; [| exact Ht].
        apply (timed_later (t := t)); auto. }
    destruct a, o as [[[r l] |] | [c |] | [| d] | [|] now | sub];
      cbn [stamp] in *;
      try (specialize (Hclock _ eq_refl);
           pose proof (timed_later Hclock Ht) as Hnow; clear Ht; rename Hnow into Ht);
      exec;
      (split; [| repeat constructor]);
      try exact Ht;
      destruct Ht as (H1 & H2 & H3 & H4);
      timed_goal.
  - destruct (socketRef s); [| split; [exact Ht | constructor]].
    destruct c; exec; (split; [| repeat constructor]);
      destruct Ht as (H1 & H2 & H3 & H4); timed_goal.
  - destruct (offered s b) eqn:Hb; [| split; [exact Ht | constructor]].
    pose proof (offered_FinishRace user_id s) as Hf.
    destruct b; exec; (split; [| repeat constructor]);
      destruct Ht as (H1 & H2 & H3 & H4); timed_goal.
    match goal with
    | H : In _ (_ ++ _) |- _ => apply in_app_or in H; destruct H as [H | [<- | []]]
    end; [eauto |].
    destruct (raceStartTime s) as [t0 |] eqn:E.
    + exists t0. split; [reflexivity |]. apply H2. reflexivity.
    + exfalso. apply H1; auto.
  - destruct (nth_error (finishDialogs s) j) eqn:Hd; (split; [| constructor]);
      destruct Ht as (H1 & H2 & H3 & H4); timed_goal.
  - specialize (Hclock _ eq_refl). cbn [stamp].
    destruct (nth_error (finishDialogs s) j) as [c |] eqn:Hd.
    2:{ split; [| constructor]. apply (timed_later (t := t)); assumption. }
    destruct Ht as (H1 & H2 & H3 & H4).
    destruct (H3 _ (nth_error_In _ _ Hd)) as (t0 & -> & Hle).
    exec; split;
      try (repeat constructor; cbn; apply finalTime_nonneg; lia);
      timed_goal;
      match goal with
      | E : raceStartTime _ = Some _ |- _ => specialize (H2 _ E); lia
      | E : In _ (finishDialogs _) |- _ =>
          destruct (H3 _ E) as (t1 & -> & Hle1); exists t1; split; [reflexivity | lia]
      end.
  - specialize (Hclock _ eq_refl). cbn [stamp].
    destruct Ht as (H1 & H2 & H3 & H4).
    assert (Hlater : timed now s).
    { apply (timed_later (t := t)); [assumption | repeat split; assumption]. }
    unfold on_tick.
    destruct (isRacing s); [| split; [exact Hlater | constructor]].
    destruct (raceStartTime s) as [t0 |] eqn:E; [| split; [exact Hlater | constructor]].
    destruct (t0 =? 0)%Z; [split; [exact Hlater | constructor] |].
    split; [| constructor].
    specialize (H2 _ eq_refl).
    destruct Hlater as (K1 & K2 & K3 & K4).
    unfold timed, setCurrentTime, modify. cbn.
    repeat split; auto. lia.
  - destruct (watchers s); [split; [exact Ht | constructor] |].
    exec; (split; [| repeat constructor]);
      destruct Ht as (H1 & H2 & H3 & H4); timed_goal.
Qed.

Lemma run_timed (events : list Event) :
  forall t s, timed t s -> clock_ok t events ->
              (0 <= currentTime (fst (run s events)))%Z /\
              Forall finish_not_negative (snd (run s events)).
Proof.
  induction events as [| e rest IH]; intros t s Ht Hc; cbn [RaceDetail.run fst snd].
  - split; [apply Ht | constructor].
  - cbn [clock_ok] in Hc.
    assert (Hnow : forall now, stamp e = Some now -> (t <= now)%Z).
    { intros now E. rewrite E in Hc. apply Hc. }
    destruct (@step_timed t s e Ht Hnow) as [Ht' Hf].
    assert (Hc' : clock_ok (match stamp e with Some now => now | None => t end) rest).
    { destruct (stamp e); [apply Hc | exact Hc]. }
    destruct (IH _ _ Ht' Hc') as [Hcur Hf'].
    split; [exact Hcur |]. apply Forall_app. auto.
Qed.

(** X10.  In a session whose clock never goes back, every final time sent
    with [finish_race] is at least zero, and so is the elapsed time the
    timer has put on display. *)
Theorem times_not_negative (t : Z) (events : list Event) :
  clock_ok t events ->
  Forall finish_not_negative (snd (session id user_id events)) /\
  (0 <= currentTime (fst (session id user_id events)))%Z.
Proof.
  intros Hc. unfold session. cbn [fst snd].
  assert (Hm : timed t (fst (mount id))).
  { repeat split; cbn; try discriminate; try lia. }
  destruct (@run_timed events t _ Hm Hc) as [Hcur Hf].
  split; [| exact Hcur].
  apply Forall_app. split; [| exact Hf].
  repeat constructor.
Qed.

End Facts.

Lemma no_racing_without_permission_witness :
  isRacing (alice_after (loaded (a_race waiting ["bob"%string]) ++
                         [Channel race_started; Resolve 0 (Permission false 5000)])) = false.
Proof.
  apply (@no_racing_without_permission race7 alice
           (loaded (a_race waiting ["bob"%string]) ++
            [Channel race_started; Resolve 0 (Permission false 5000)])).
  reflexivity.
Defined.

Lemma startRacing_sources_witness :
  exists r ps,
    race (alice_after (loaded (a_race active ["alice"%string]))) = Some r /\
    participants r = Some ps /\ status r = active /\
    hasJoined alice ps = true /\
    isRacing (alice_after (loaded (a_race active ["alice"%string]))) = false.
Proof.
  apply (@startRacing_sources race7 alice
           (alice_after (loaded (a_race active ["alice"%string])))
           (Press BeginRacing)).
  reflexivity.
Defined.

Lemma racing_has_channel_and_start_witness :
  socketRef (alice_after about_to_finish) <> None /\
  raceStartTime (alice_after about_to_finish) <> None.
Proof.
  apply (@racing_has_channel_and_start race7 alice about_to_finish).
  reflexivity.
Defined.

Lemma times_not_negative_witness :
  Forall finish_not_negative
         (alice_did (about_to_finish ++ [Tick 2000; DialogFinish 0 62500])) /\
  (0 <= currentTime (alice_after (about_to_finish ++ [Tick 2000; DialogFinish 0 62500])))%Z.
Proof.
  apply (@times_not_negative race7 alice 0%Z
           (about_to_finish ++ [Tick 2000; DialogFinish 0 62500])).
  cbn. repeat split; lia.
Defined.

End RaceDetailMoreFacts.

(** ** More on the circuit detail screen *)

Module CircuitDetailMoreFacts.
Import CircuitDetail CircuitDetailMore.

Lemma createRace_inflight (id : string) (s : State) (e : Event) :
  inflight s = (if creating s then 1 else 0)%nat ->
  inflight (fst (step id s e)) = (if creating (fst (step id s e)) then 1 else 0)%nat /\
  (length (snd (step id s e)) <= 1)%nat.
Proof.
  intros Hi. destruct e as [| d]; cbn [step].
  - destruct (enabled s) eqn:He; [| split; [exact Hi | simpl; lia]].
    unfold enabled in He. apply andb_true_iff in He. destruct He as [_ Hc].
    apply negb_true_iff in Hc. rewrite Hc in Hi.
    cbn. rewrite Hi. split; [reflexivity | lia].
  - destruct (inflight s) as [| n] eqn:Hn.
    + cbn. rewrite Hn. split; [exact Hi | lia].
    + cbn. rewrite ?Hn. cbn [pred].
      destruct (creating s); [| discriminate].
      injection Hi as ->. split; [reflexivity | lia].
Qed.

(** X11.  On the circuit screen, once the circuit is shown, at most one
    [createRace] request waits for its response at any time: the number in
    flight is one while [creating] is set and zero otherwise, whatever the
    presses and responses. *)
Theorem one_createRace_in_flight (id circuit : string) (events : list Event) :
  inflight (fst (run id (showing circuit) events)) =
  (if creating (fst (run id (showing circuit) events)) then 1 else 0)%nat.
Proof.
  assert (Hgen : forall s, inflight s = (if creating s then 1 else 0)%nat ->
                           inflight (fst (run id s events)) =
                           (if creating (fst (run id s events)) then 1 else 0)%nat).
  { induction events as [| e rest IH]; intros s Hs; cbn [run fst].
    - exact Hs.
    - apply IH, (createRace_inflight id s e Hs). }
  apply Hgen. reflexivity.
Qed.

End CircuitDetailMoreFacts.

